(** * Buffett Portfolio Analyzer: the React front end and the engine contract

    The repository's TypeScript sources (the axios service layer, the
    [StockList], [StockDetailView], [AddStockForm] and [AnalyzeStocksButton]
    components) are embedded below as Rocq definitions.  The Flask back end
    (portfolio store, scoring engine, reanalysis orchestrator) is not part
    of the sources; where a property is about it, it is modelled from the
    design document and marked as such. *)

From Stdlib Require Import Ascii String QArith Qround Qabs Qminmax Lqa DecimalString.
From stdpp Require Import base option list strings gmap sorting.

Local Open Scope string_scope.

(** ** JavaScript values and built-ins used by the components *)

Module Js.

(** A numeric property of a JSON record as the components read it: the
    property may be missing ([undefined]), [null], or a number.  JSON
    numbers are finite; every finite double is a rational, so numbers are
    exact rationals here.  Only the sign of a difference and the decimal
    expansion of a value are ever observed, and both agree with IEEE
    arithmetic on finite doubles. *)
Inductive jsnum : Type :=
| Undefined
| Null
| Num (q : Q).

(** ToBoolean on such a value: [undefined], [null] and [0] are falsy. *)
Definition truthy (v : jsnum) : bool :=
  match v with
  | Num q => negb (Qeq_bool q 0)
  | _ => false
  end.

(** [v ? th(v) : el]: in the first branch [v] is a non-zero number. *)
Definition if_truthy {A} (v : jsnum) (th : Q → A) (el : A) : A :=
  match v with
  | Num q => if truthy v then th q else el
  | _ => el
  end.

(** [v || d] with a numeric default. *)
Definition or_num (v : jsnum) (d : Q) : Q := if_truthy v (fun q => q) d.

(** ToBoolean on a string: only the empty string is falsy. *)
Definition truthy_string (s : string) : bool :=
  match s with
  | EmptyString => false
  | _ => true
  end.

(** [s || d] where [s] is a string or [undefined] ([None]). *)
Definition or_string (s : option string) (d : string) : string :=
  match s with
  | Some s' => if truthy_string s' then s' else d
  | None => d
  end.

(** Number::toString prints the shortest digits that round-trip through
    the double; it belongs to the host and is taken as given.  It is used
    where a number is rendered as such, and by [toFixed] for magnitudes of
    at least 10^21. *)
Class NumberToString := number_to_string : Q → string.

(** The decimal digits of a non-negative integer, without leading zeros;
    "0" for zero. *)
Definition digits (n : Z) : string :=
  NilZero.string_of_uint (N.to_uint (Z.to_N n)).

(** [k] occurrences of the digit 0. *)
Fixpoint zeros (k : nat) : string :=
  match k with
  | O => EmptyString
  | S k' => String "0"%char (zeros k')
  end.

(** Number.prototype.toFixed (ECMA-262, 21.1.3.3) on a finite number. *)
Definition toFixed `{NumberToString} (x : Q) (f : nat) : string :=
  let s := if Qle_bool 0 x then EmptyString else "-" in
  let x := Qabs x in
  let m :=
    if Qle_bool (inject_Z (10 ^ 21)) x then number_to_string x
    else
      (* the integer n with n / 10^f closest to x, the larger on a tie *)
      let n := Qfloor (x * inject_Z (10 ^ Z.of_nat f) + (1 # 2))%Q in
      let m := digits n in
      match f with
      | O => m
      | _ =>
          let k := String.length m in
          let m := if (k <=? f)%nat then zeros (f + 1 - k) ++ m else m in
          let k := String.length m in
          substring 0 (k - f) m ++ "." ++ substring (k - f) f m
      end
  in s ++ m.

(** [v?.toFixed(f)]: [undefined] when the receiver is nullish. *)
Definition opt_toFixed `{NumberToString} (v : jsnum) (f : nat) : option string :=
  match v with
  | Num q => Some (toFixed q f)
  | _ => None
  end.

(** String.prototype.toUpperCase (ECMA-262, 22.1.3.28) converts the code
    points of the string by the Unicode default case conversion, whose
    tables belong to the host: the sharp s becomes "SS", an accented letter
    its accented capital.  Strings are UTF-8 text here, so a byte below 128
    is an ASCII code point and every other byte is part of a longer one.  On
    ASCII the conversion is fixed: a-z go to A-Z, the rest stays. *)
Definition upper_ascii (c : ascii) : ascii :=
  let n := nat_of_ascii c in
  if ((97 <=? n) && (n <=? 122))%nat then ascii_of_nat (n - 32) else c.

(** The text holds ASCII code points only. *)
Fixpoint ascii_text (s : string) : bool :=
  match s with
  | EmptyString => true
  | String c s' => (nat_of_ascii c <? 128)%nat && ascii_text s'
  end.

(** The conversion of ASCII text, letter by letter. *)
Fixpoint upper_ascii_text (s : string) : string :=
  match s with
  | EmptyString => EmptyString
  | String c s' => String (upper_ascii c) (upper_ascii_text s')
  end.

(** [s.toUpperCase()]: the host's conversion, which on ASCII text is the
    one above; nothing else is assumed of it. *)
Class ToUpperCase := {
  toUpperCase : string → string;
  toUpperCase_ascii : ∀ s, ascii_text s = true → toUpperCase s = upper_ascii_text s
}.

(** Array.prototype.sort with a comparison function.  The specification
    fixes the result for a consistent comparator: a stable sort (ES2019),
    [comparefn a b > 0] placing [a] after [b].  Stable insertion from the
    right computes exactly that result. *)
Section Sort.
Context {A : Type} (comparefn : A → A → Q).

Fixpoint insert (x : A) (l : list A) : list A :=
  match l with
  | [] => [x]
  | y :: l' =>
      if Qle_bool (comparefn x y) 0 then x :: y :: l'
      else y :: insert x l'
  end.

Definition sort (l : list A) : list A := foldr insert [] l.
End Sort.

End Js.

Import Js.

(** ** The record the components display (interface [Stock] / [StockDetail]) *)

Record Stock : Type := {
  symbol : string;
  current_price : jsnum;
  pe_ratio : jsnum;
  roe : jsnum;
  total_score : jsnum;
  analyst_ratings_buy : jsnum;
  analyst_ratings_hold : jsnum;
  analyst_ratings_sell : jsnum;
  analyst_ratings_strong_buy : jsnum;
  analyst_ratings_strong_sell : jsnum;
  rsi : jsnum;
  macd : jsnum;
  volatility : jsnum;
  sentiment_score : jsnum;
  beta : jsnum
}.

(** ** Asynchronous handlers: programs over component state

    A handler is a finite tree of effects: state updates ([setX] calls),
    console output, calls of a callback passed as a prop, and [await]s of an
    axios request.  [try]/[catch]/[finally] are tree transformers. *)

Module Async.

(** What a [catch] clause receives: the axios error's [message] and
    [response?.data?.message]. *)
Record error : Type := {
  message : string;
  response_message : option string
}.

(** How a promise settles, or how a call ends: with a value or with a
    thrown error. *)
Inductive outcome (A : Type) : Type :=
| Fulfilled (a : A)
| Rejected (e : error).
Arguments Fulfilled {A} a.
Arguments Rejected {A} e.

(** A response body: an array of records, or anything else. *)
Inductive non_array : Type :=
| NUndefined
| NNull
| NBool (b : bool)
| NNumber (q : Q)
| NString (s : string)
| NObject (fields : list (string * string)).

(** [response.data]; the components type the elements of an array as
    [Stock]. *)
Inductive payload : Type :=
| Records (l : list Stock)
| Other (v : non_array).

(** The axios response, of which the service reads [data]. *)
Record response : Type := { data : payload }.

(** The calls on the axios instance: [api.get(url)], [api.post(url, body)]
    with the body's string fields, [api.delete(url)]. *)
Inductive http_request : Type :=
| Get (url : string)
| Post (url : string) (body : list (string * string))
| Delete (url : string).

(** The callback props of the components. *)
Inductive callback : Type :=
| onAnalysisComplete
| onStockAdded.

(** Effects without a result: console output (the message's first
    argument) and [e.preventDefault()]. *)
Inductive effect : Type :=
| console_log (msg : string)
| console_error (msg : string)
| preventDefault.

(** A handler over component state [S] returning [A]: it returns, throws,
    calls a state setter, performs an effect, calls a callback (which
    returns or throws), or awaits a request (which resolves or rejects). *)
Inductive prog (S A : Type) : Type :=
| Ret (a : A)
| Throw (e : error)
| SetState (f : S → S) (k : prog S A)
| Effect (ev : effect) (k : prog S A)
| Invoke (c : callback) (k : outcome unit → prog S A)
| Await (r : http_request) (k : outcome response → prog S A).
Arguments Ret {S A} a.
Arguments Throw {S A} e.
Arguments SetState {S A} f k.
Arguments Effect {S A} ev k.
Arguments Invoke {S A} c k.
Arguments Await {S A} r k.

(** Sequencing: [k] runs on the value of [p] unless [p] throws. *)
Fixpoint bind {S A B} (p : prog S A) (k : A → prog S B) : prog S B :=
  match p with
  | Ret a => k a
  | Throw e => Throw e
  | SetState f p' => SetState f (bind p' k)
  | Effect ev p' => Effect ev (bind p' k)
  | Invoke c p' => Invoke c (fun o => bind (p' o) k)
  | Await r p' => Await r (fun o => bind (p' o) k)
  end.

#[export] Instance prog_ret {S} : MRet (prog S) := fun A a => Ret a.
#[export] Instance prog_bind {S} : MBind (prog S) := fun A B k p => bind p k.

(** [try { p } catch (e) { h e }] *)
Fixpoint try_catch {S A} (p : prog S A) (h : error → prog S A) : prog S A :=
  match p with
  | Ret a => Ret a
  | Throw e => h e
  | SetState f p' => SetState f (try_catch p' h)
  | Effect ev p' => Effect ev (try_catch p' h)
  | Invoke c p' => Invoke c (fun o => try_catch (p' o) h)
  | Await r p' => Await r (fun o => try_catch (p' o) h)
  end.

(** [try { p } finally { f }]: [f] runs on both exits and the exit of [p]
    is kept, unless [f] itself throws. *)
Fixpoint finally {S A} (p : prog S A) (f : prog S unit) : prog S A :=
  match p with
  | Ret a => bind f (fun _ => Ret a)
  | Throw e => bind f (fun _ => Throw e)
  | SetState g p' => SetState g (finally p' f)
  | Effect ev p' => Effect ev (finally p' f)
  | Invoke c p' => Invoke c (fun o => finally (p' o) f)
  | Await r p' => Await r (fun o => finally (p' o) f)
  end.

(** Returning the value or throwing the error of an outcome. *)
Definition settle {S A} (o : outcome A) : prog S A :=
  match o with
  | Fulfilled a => Ret a
  | Rejected e => Throw e
  end.

(** The single steps: a setter call, an effect, a callback call,
    [await request]. *)
Definition set_state {S} (f : S → S) : prog S unit := SetState f (Ret tt).
Definition perform {S} (ev : effect) : prog S unit := Effect ev (Ret tt).
Definition invoke {S} (c : callback) : prog S unit := Invoke c settle.
Definition await {S} (r : http_request) : prog S response := Await r settle.

(** *** Meaning of a program *)

(** The surroundings of a handler: what the server answers to a request
    and whether a callback returns or throws. *)
Record world : Type := {
  respond : http_request → outcome response;
  react : callback → outcome unit
}.

(** What a handler did, as recorded in its trace. *)
Inductive event : Type :=
| Did (ev : effect)
| Called (c : callback)
| Requested (r : http_request).

(** Running a handler to completion: how the returned promise settles,
    the component state it leaves and what it did, in order. *)
Fixpoint run {S A} (w : world) (p : prog S A) (s : S)
  : outcome A * S * list event :=
  match p with
  | Ret a => (Fulfilled a, s, [])
  | Throw e => (Rejected e, s, [])
  | SetState f k => run w k (f s)
  | Effect ev k => let '(o, s', t) := run w k s in (o, s', Did ev :: t)
  | Invoke c k => let '(o, s', t) := run w (k (react w c)) s in (o, s', Called c :: t)
  | Await r k => let '(o, s', t) := run w (k (respond w r)) s in (o, s', Requested r :: t)
  end.

(** Running a handler up to its next [await]: the synchronous prefix ends
    either settled or suspended on a request, with the continuation that
    the answer resumes. *)
Inductive status (S A : Type) : Type :=
| Settled (o : outcome A)
| Suspended (r : http_request) (k : outcome response → prog S A).
Arguments Settled {S A} o.
Arguments Suspended {S A} r k.

Fixpoint advance {S A} (cb : callback → outcome unit) (p : prog S A) (s : S)
  : status S A * S * list event :=
  match p with
  | Ret a => (Settled (Fulfilled a), s, [])
  | Throw e => (Settled (Rejected e), s, [])
  | SetState f k => advance cb k (f s)
  | Effect ev k => let '(st, s', t) := advance cb k s in (st, s', Did ev :: t)
  | Invoke c k => let '(st, s', t) := advance cb (k (cb c)) s in (st, s', Called c :: t)
  | Await r k => (Suspended r k, s, [Requested r])
  end.

End Async.

Import Async.

(** ** services/api.ts: the axios service layer *)

Module stockService.

Definition getAllStocks {S} : prog S payload :=
  try_catch
    (perform (console_log "Fetching stocks from:") ;;
     response ← await (Get "/stocks") ;
     perform (console_log "Response received:") ;;
     mret (data response))
    (fun error =>
       perform (console_error "Error fetching stocks:") ;;
       Throw error).

Definition addStock {S} (symbol : string) : prog S payload :=
  try_catch
    (perform (console_log "Attempting to add stock:") ;;
     response ← await (Post "/stocks" [("symbol", symbol)]) ;
     perform (console_log "Add stock response:") ;;
     mret (data response))
    (fun error =>
       perform (console_error "Error adding stock:") ;;
       Throw error).

(** The second copy of the service file has the same [analyzeStocks]
    without the three [console.log] lines. *)
Definition analyzeStocks {S} : prog S payload :=
  try_catch
    (perform (console_log "Starting stock analysis...") ;;
     perform (console_log "Sending request to:") ;;
     response ← await (Post "/analyze-stocks" []) ;
     perform (console_log "Analysis response:") ;;
     mret (data response))
    (fun error =>
       perform (console_error "Error analyzing stocks:") ;;
       Throw error).

Definition removeStock {S} (symbol : string) : prog S payload :=
  try_catch
    (response ← await (Delete ("/remove-stock/" ++ symbol)) ;
     mret (data response))
    (fun error =>
       perform (console_error "Error removing stock:") ;;
       Throw error).

End stockService.

(** ** components/StockDetailView.tsx *)

Module StockDetailView.
Section Render.
Context `{NumberToString}.

(** In JSX [undefined] renders as nothing, so [{v?.toFixed(2)}]
    contributes the empty text when [v] is nullish. *)
Definition text_or_nothing (s : option string) : string :=
  match s with
  | Some s' => s'
  | None => EmptyString
  end.

(** [{v || 'N/A'}] for a count: a number is rendered by ToString. *)
Definition count_cell (v : jsnum) : string :=
  if_truthy v number_to_string "N/A".

(** The rows [(label, cell text)] of the dialog body, in order. *)
Definition rows (stock : Stock) : list (string * string) :=
  [ ("Current Price", "$" ++ or_string (opt_toFixed (current_price stock) 2) "N/A");
    ("P/E Ratio", or_string (opt_toFixed (pe_ratio stock) 2) "N/A");
    ("ROE", text_or_nothing (opt_toFixed (roe stock) 2) ++ "%");
    ("Strong Buy", count_cell (analyst_ratings_strong_buy stock));
    ("Buy", count_cell (analyst_ratings_buy stock));
    ("Hold", count_cell (analyst_ratings_hold stock));
    ("Sell", count_cell (analyst_ratings_sell stock));
    ("Strong Sell", count_cell (analyst_ratings_strong_sell stock));
    ("RSI", or_string (opt_toFixed (rsi stock) 2) "N/A");
    ("MACD", or_string (opt_toFixed (macd stock) 2) "N/A");
    ("Volatility", or_string (opt_toFixed (volatility stock) 3) "N/A");
    ("Sentiment Score", or_string (opt_toFixed (sentiment_score stock) 2) "N/A");
    ("Beta", or_string (opt_toFixed (beta stock) 2) "N/A");
    ("Total Score", or_string (opt_toFixed (total_score stock) 2) "N/A") ].

Record dialog : Type := {
  dialog_open : bool;
  dialog_title : string;
  dialog_rows : list (string * string)
}.

(** [if (!stock) return null]; otherwise the dialog. *)
Definition render (open : bool) (stock : option Stock) : option dialog :=
  match stock with
  | None => None
  | Some stock =>
      Some {| dialog_open := open;
              dialog_title := "Detailed Analysis: " ++ symbol stock;
              dialog_rows := rows stock |}
  end.
End Render.
End StockDetailView.

(** ** components/StockList.tsx *)

Module StockList.

Record State : Type := {
  stocks : list Stock;
  error : string;
  loading : bool;
  selectedStock : option Stock;
  detailViewOpen : bool;
  removingSymbol : option string
}.

(** [useState] initial values. *)
Definition initial : State :=
  {| stocks := []; error := EmptyString; loading := true;
     selectedStock := None; detailViewOpen := false; removingSymbol := None |}.

(** The setters of the six [useState] cells. *)
Definition setStocks (v : list Stock) : prog State unit :=
  set_state (fun s => {| stocks := v; error := error s; loading := loading s;
                         selectedStock := selectedStock s;
                         detailViewOpen := detailViewOpen s;
                         removingSymbol := removingSymbol s |}).
Definition setError (v : string) : prog State unit :=
  set_state (fun s => {| stocks := stocks s; error := v; loading := loading s;
                         selectedStock := selectedStock s;
                         detailViewOpen := detailViewOpen s;
                         removingSymbol := removingSymbol s |}).
Definition setLoading (v : bool) : prog State unit :=
  set_state (fun s => {| stocks := stocks s; error := error s; loading := v;
                         selectedStock := selectedStock s;
                         detailViewOpen := detailViewOpen s;
                         removingSymbol := removingSymbol s |}).
Definition setSelectedStock (v : option Stock) : prog State unit :=
  set_state (fun s => {| stocks := stocks s; error := error s; loading := loading s;
                         selectedStock := v;
                         detailViewOpen := detailViewOpen s;
                         removingSymbol := removingSymbol s |}).
Definition setDetailViewOpen (v : bool) : prog State unit :=
  set_state (fun s => {| stocks := stocks s; error := error s; loading := loading s;
                         selectedStock := selectedStock s;
                         detailViewOpen := v;
                         removingSymbol := removingSymbol s |}).
Definition setRemovingSymbol (v : option string) : prog State unit :=
  set_state (fun s => {| stocks := stocks s; error := error s; loading := loading s;
                         selectedStock := selectedStock s;
                         detailViewOpen := detailViewOpen s;
                         removingSymbol := v |}).

(** [Array.isArray(data)] *)
Definition isArray (d : payload) : bool :=
  match d with
  | Records _ => true
  | Other _ => false
  end.

(** [Array.isArray(data) ? data : []] *)
Definition stocksArray (data : payload) : list Stock :=
  if isArray data then
    match data with
    | Records l => l
    | Other _ => []
    end
  else [].

(** [(a, b) => (b.total_score || 0) - (a.total_score || 0)] *)
Definition by_score (a b : Stock) : Q :=
  (or_num (total_score b) 0 - or_num (total_score a) 0)%Q.

(** The effect run once on mount. *)
Definition fetchStocks : prog State unit :=
  finally
    (try_catch
       (setLoading true ;;
        data ← stockService.getAllStocks ;
        let sortedStocks := sort by_score (stocksArray data) in
        setStocks sortedStocks)
       (fun err =>
          perform (console_error "Error details:") ;;
          setError "Failed to fetch stocks"))
    (setLoading false).

Definition handleViewDetails (stock : Stock) : prog State unit :=
  setSelectedStock (Some stock) ;;
  setDetailViewOpen true.

(** The dialog's [onClose]: [() => setDetailViewOpen(false)]. *)
Definition handleCloseDetails : prog State unit :=
  setDetailViewOpen false.

(** [handleRemoveStock] closes over the [stocks] of the render that
    created it; [shown] is that render's state. *)
Definition handleRemoveStock (shown : State) (symbol' : string) : prog State unit :=
  finally
    (try_catch
       (setRemovingSymbol (Some symbol') ;;
        stockService.removeStock symbol' ;;
        setStocks (filter (fun stock => symbol stock ≠ symbol') (stocks shown)))
       (fun err =>
          setError (or_string (response_message err) "Failed to remove stock")))
    (setRemovingSymbol None).

Section Render.
Context `{NumberToString}.

(** The four metric cells: [v ? format(v) : 'N/A']. *)
Definition price_cell (stock : Stock) : string :=
  if_truthy (current_price stock) (fun price => "$" ++ toFixed price 2) "N/A".
Definition pe_cell (stock : Stock) : string :=
  if_truthy (pe_ratio stock) (fun pe => toFixed pe 2) "N/A".
Definition roe_cell (stock : Stock) : string :=
  if_truthy (roe stock) (fun r => toFixed r 2 ++ "%") "N/A".
Definition score_cell (stock : Stock) : string :=
  if_truthy (total_score stock) (fun score => toFixed score 2) "N/A".

(** One table row; the mobile card shows the same four texts. *)
Record row : Type := {
  row_symbol : string;
  row_price : string;
  row_pe : string;
  row_roe : string;
  row_score : string;
  remove_disabled : bool
}.

(** The Remove button of a row is disabled while that symbol is being
    removed. *)
Definition render_row (s : State) (stock : Stock) : row :=
  {| row_symbol := symbol stock;
     row_price := price_cell stock;
     row_pe := pe_cell stock;
     row_roe := roe_cell stock;
     row_score := score_cell stock;
     remove_disabled := bool_decide (removingSymbol s = Some (symbol stock)) |}.

(** What the component returns: the spinner while loading, the error text
    if there is one, otherwise the table and the detail dialog. *)
Inductive view : Type :=
| Spinner
| ErrorText (msg : string)
| Portfolio (table : list row) (detail : option StockDetailView.dialog).

Definition render (s : State) : view :=
  if loading s then Spinner
  else if truthy_string (error s) then ErrorText (error s)
  else Portfolio (map (render_row s) (stocks s))
                 (StockDetailView.render (detailViewOpen s) (selectedStock s)).
End Render.

End StockList.

(** ** components/AddStockForm.tsx *)

Module AddStockForm.

Record State : Type := { symbol : string }.

Definition initial : State := {| symbol := EmptyString |}.

Definition setSymbol (v : string) : prog State unit :=
  set_state (fun _ => {| symbol := v |}).

(** The text field's [onChange]. *)
Definition handleChange (value : string) : prog State unit := setSymbol value.

(** [handleSubmit] reads the [symbol] of the render that created it. *)
Definition handleSubmit `{ToUpperCase} (shown : State) : prog State unit :=
  perform preventDefault ;;
  if negb (truthy_string (symbol shown)) then mret tt
  else
    try_catch
      (stockService.addStock (toUpperCase (symbol shown)) ;;
       setSymbol EmptyString ;;
       invoke onStockAdded)
      (fun err => perform (console_error "Error adding stock:")).

End AddStockForm.

(** ** components/AnalyzeStocksButton.tsx *)

Module AnalyzeStocksButton.

Record State : Type := { loading : bool }.

Definition initial : State := {| loading := false |}.

Definition setLoading (v : bool) : prog State unit :=
  set_state (fun _ => {| loading := v |}).

Definition handleAnalyze : prog State unit :=
  finally
    (try_catch
       (setLoading true ;;
        stockService.analyzeStocks ;;
        invoke onAnalysisComplete)
       (fun err => perform (console_error "Error analyzing stocks:")))
    (setLoading false).

(** The rendered button. *)
Record button : Type := { disabled : bool; spinner : bool; label : string }.

Definition render (s : State) : button :=
  {| disabled := loading s;
     spinner := loading s;
     label := if loading s then "Analyzing" else "Analyze Stocks" |}.

(** *** The mounted button

    Between user events React has committed every state update, so the
    button a click reaches is the render of the current state; a disabled
    button fires no [onClick].  A handler runs up to its [await]; the
    answer to the oldest open request resumes its continuation. *)
Record config : Type := {
  state : State;
  waiting : list (outcome response → prog State unit);
  log : list event;
  escaped : list Async.error
}.

Definition mounted : config :=
  {| state := initial; waiting := []; log := []; escaped := [] |}.

Inductive input : Type :=
| Click
| Answer (o : outcome response).

(** Running a handler, or a resumed continuation, up to its next [await]. *)
Definition dispatch (cb : callback → outcome unit)
    (p : prog State unit) (c : config) : config :=
  let '(st, s', t) := advance cb p (state c) in
  {| state := s';
     waiting := match st with
                | Suspended _ k => waiting c ++ [k]
                | Settled _ => waiting c
                end;
     log := log c ++ t;
     escaped := match st with
                | Settled (Rejected e) => escaped c ++ [e]
                | _ => escaped c
                end |}.

(** One event: a click, or the answer to the oldest open request. *)
Definition step (cb : callback → outcome unit) (c : config) (i : input) : config :=
  match i with
  | Click =>
      if disabled (render (state c)) then c
      else dispatch cb handleAnalyze c
  | Answer o =>
      match waiting c with
      | [] => c
      | k :: rest =>
          dispatch cb (k o)
            {| state := state c; waiting := rest; log := log c; escaped := escaped c |}
      end
  end.

Definition steps (cb : callback → outcome unit) (c : config) (inputs : list input) : config :=
  foldl (step cb) c inputs.

End AnalyzeStocksButton.


(** ** The analysis engine behind the HTTP API

    The Flask back end is not among the sources.  Its components are
    modelled from the design document, one definition per contract. *)

Module Engine.

(** Modelled from the spec: the error taxonomy of section 7; the back end
    that raises these errors is missing from the sources. *)
Inductive error : Type :=
| ValidationError
| DuplicateSymbol
| NotFound
| SymbolNotFound
| TransientFetchError
| PersistenceError.

(** Modelled from the spec: AnalystRatingRow of section 3, five
    non-negative rating counts; the dataset loader is missing. *)
Record RatingCounts : Type := {
  strong_buy : nat;
  buy : nat;
  hold : nat;
  sell : nat;
  strong_sell : nat
}.

(** Modelled from the spec: the scored inputs of sections 4.1 and 4.3, each
    independently absent-able ([None] is "unknown"); the fetcher is missing. *)
Record Metrics : Type := {
  m_current_price : option Q;
  m_pe_ratio : option Q;
  m_roe : option Q;
  m_rsi : option Q;
  m_macd : option Q;
  m_volatility : option Q;
  m_beta : option Q;
  m_sentiment_score : option Q
}.

(** Modelled from the spec: StockRecord of section 3 as the store persists
    it; the table definition is missing. *)
Record StockRecord : Type := {
  symbol : string;
  metrics : Metrics;
  ratings : RatingCounts;
  total_score : option Q;
  last_analyzed_at : option Z
}.

(** Modelled from the spec: a never-analyzed record has every metric
    absent; the back end's record constructor is missing. *)
Definition no_metrics : Metrics :=
  {| m_current_price := None; m_pe_ratio := None; m_roe := None; m_rsi := None;
     m_macd := None; m_volatility := None; m_beta := None;
     m_sentiment_score := None |}.

(** Modelled from the spec: the rating counts default to 0; the dataset
    loader is missing. *)
Definition no_ratings : RatingCounts :=
  {| strong_buy := 0; buy := 0; hold := 0; sell := 0; strong_sell := 0 |}.

(** Modelled from the spec: the record created by an add-stock request,
    "never analyzed": all metric fields absent, [total_score] null. *)
Definition placeholder (s : string) : StockRecord :=
  {| symbol := s; metrics := no_metrics; ratings := no_ratings;
     total_score := None; last_analyzed_at := None |}.

(** *** 4.4 Portfolio Store *)

(** Modelled from the spec: "durable mapping of tracked symbol to latest
    enriched record"; the SQLite-backed store is missing. *)
Abbreviation Store := (gmap string StockRecord).

(** Modelled from the spec: [add] fails with [DuplicateSymbol] on a symbol
    already present and otherwise creates the placeholder record. *)
Definition add (s : string) (store : Store) : (error + unit) * Store :=
  match store !! s with
  | Some _ => (inl DuplicateSymbol, store)
  | None => (inr tt, <[s := placeholder s]> store)
  end.

(** Modelled from the spec: [remove] fails with [NotFound] on an unknown
    symbol and otherwise destroys the record. *)
Definition remove (s : string) (store : Store) : (error + unit) * Store :=
  match store !! s with
  | None => (inl NotFound, store)
  | Some _ => (inr tt, delete s store)
  end.

(** Modelled from the spec: [list] returns all tracked records. *)
Definition list_records (store : Store) : list StockRecord :=
  (map_to_list store).*2.

(** Modelled from the spec: [upsert] writes the record under its symbol. *)
Definition upsert (r : StockRecord) (store : Store) : Store :=
  <[symbol r := r]> store.

(** Modelled from the spec: "symbol is the unique key": the store's
    representation invariant, a record sits under its own symbol; the
    table definition is missing. *)
Definition keyed (store : Store) : Prop :=
  ∀ k r, store !! k = Some r → symbol r = k.

(** *** 4.2 Analyst Rating Dataset *)

(** Modelled from the spec: [lookup] defaults every count to 0 when the
    symbol is absent from the dataset; the CSV loader is missing. *)
Definition lookup (dataset : gmap string RatingCounts) (s : string) : RatingCounts :=
  default no_ratings (dataset !! s).

(** *** 4.3 Scoring Engine *)

(** Modelled from the spec: the signals section 4.3 lists as contributing
    to the composite score; the scoring code is missing. *)
Inductive component : Type :=
| PE | ROE | RSI | MACD | Volatility | Beta | Sentiment | Analysts.

(** Modelled from the spec: the signals in the order section 4.3 lists
    them; the scoring code is missing. *)
Definition components : list component :=
  [PE; ROE; Analysts; RSI; MACD; Volatility; Beta; Sentiment].

(** Modelled from the spec: the tunable scoring policy.  The design leaves
    the weights and the bounded monotone sub-score mappings open, so they
    are the policy's fields, as is the score of a record with nothing to
    score. *)
Record Policy : Type := {
  weight : component → Q;
  sub_score : component → Q → Q;
  unscored : Q
}.

(** Modelled from the spec: net bullishness, the weighted sum
    (strong_buy x 2 + buy x 1 - sell x 1 - strong_sell x 2) normalized by
    the total rating count; with no rating at all there is nothing to
    normalize and the signal is absent. *)
Definition bullishness (r : RatingCounts) : option Q :=
  let total := (strong_buy r + buy r + hold r + sell r + strong_sell r)%nat in
  match total with
  | O => None
  | _ =>
      Some ((inject_Z (2 * Z.of_nat (strong_buy r) + Z.of_nat (buy r)
                       - Z.of_nat (sell r) - 2 * Z.of_nat (strong_sell r)))
            / inject_Z (Z.of_nat total))%Q
  end.

(** Modelled from the spec: the value a signal takes on given inputs,
    absent when its metric is; the scoring code is missing. *)
Definition signal (m : Metrics) (r : RatingCounts) (c : component) : option Q :=
  match c with
  | PE => m_pe_ratio m
  | ROE => m_roe m
  | RSI => m_rsi m
  | MACD => m_macd m
  | Volatility => m_volatility m
  | Beta => m_beta m
  | Sentiment => m_sentiment_score m
  | Analysts => bullishness r
  end.

Section Scoring.
Context (p : Policy).

(** Modelled from the spec: what one signal adds to the numerator of the
    weighted average; the scoring code is missing. *)
Definition numerator_term (v : option Q) (c : component) : Q :=
  match v with
  | Some x => (weight p c * sub_score p c x)%Q
  | None => 0%Q
  end.

(** Modelled from the spec: what one signal adds to the denominator of
    the weighted average; the scoring code is missing. *)
Definition denominator_term (v : option Q) (c : component) : Q :=
  match v with
  | Some _ => weight p c
  | None => 0%Q
  end.

(** Modelled from the spec: the sum of a weighted average's terms. *)
Definition Qsum (l : list Q) : Q := foldr Qplus 0%Q l.

(** Modelled from the spec: numerator of the weighted average over the
    signals [cs]; the scoring code is missing. *)
Definition numerator_over (cs : list component) (m : Metrics) (r : RatingCounts) : Q :=
  Qsum (map (fun c => numerator_term (signal m r c) c) cs).

(** Modelled from the spec: denominator of the weighted average over the
    signals [cs]; the scoring code is missing. *)
Definition denominator_over (cs : list component) (m : Metrics) (r : RatingCounts) : Q :=
  Qsum (map (fun c => denominator_term (signal m r c) c) cs).

(** Modelled from the spec: the average's division, undefined on a zero
    denominator (where the back end's language would raise). *)
Definition divide (a b : Q) : option Q :=
  if Qeq_bool b 0 then None else Some (a / b)%Q.

(** Modelled from the spec: the weighted average over the signals [cs],
    finite also when no weight is present; the scoring code is missing. *)
Definition score_over (cs : list component) (m : Metrics) (r : RatingCounts) : Q :=
  default (unscored p) (divide (numerator_over cs m r) (denominator_over cs m r)).

(** Modelled from the spec: [score(metrics, ratings) -> total_score], the
    weighted average of the sub-scores of the signals that are present. *)
Definition score (m : Metrics) (r : RatingCounts) : Q :=
  score_over components m r.

End Scoring.

(** *** 4.1 Market Data Client *)

(** Modelled from the spec: what the external provider can answer:
    metrics, "symbol unknown" (terminal), or unreachable / rate-limited /
    malformed (retryable); the provider client is missing. *)
Inductive reply : Type :=
| Quote (m : Metrics)
| UnknownSymbol
| Unreachable.

(** Modelled from the spec: the retry cap, "cap at 3 attempts". *)
Definition max_attempts : nat := 3.

(** Modelled from the spec: [fetch(symbol) -> MarketMetrics | Error].  An
    unknown symbol is terminal; a transient failure is retried until the
    attempts are used up.  [provider s i] is the provider's answer to the
    [i]-th request for [s]; the waiting between attempts is not modelled. *)
Fixpoint fetch_from (provider : string → nat → reply) (s : string)
    (attempt budget : nat) : error + Metrics :=
  match budget with
  | O => inl TransientFetchError
  | S budget' =>
      match provider s attempt with
      | Quote m => inr m
      | UnknownSymbol => inl SymbolNotFound
      | Unreachable => fetch_from provider s (S attempt) budget'
      end
  end.

(** Modelled from the spec: [fetch] starts with the first attempt and the
    full retry budget; the provider client is missing. *)
Definition fetch (provider : string → nat → reply) (s : string) : error + Metrics :=
  fetch_from provider s 0 max_attempts.

(** *** 4.5 Reanalysis Orchestrator *)

(** Modelled from the spec: what a batch pass consumes besides the store:
    the provider, the rating dataset, the scoring policy, whether a write
    for a symbol succeeds, and the time of the pass; the orchestrator is
    missing. *)
Record Env : Type := {
  provider : string → nat → reply;
  dataset : gmap string RatingCounts;
  policy : Policy;
  writable : string → bool;
  now : Z
}.

(** Modelled from the spec: a symbol's entry in the [BatchResult], either
    [Success(new total_score)] or [Failure(reason)]. *)
Inductive Outcome : Type :=
| Success (new_total_score : Q)
| Failure (reason : error).

(** Modelled from the spec: [BatchResult], the outcome per symbol. *)
Abbreviation BatchResult := (list (string * Outcome)).

(** Modelled from the spec: one symbol's pass: Market Data Client, then
    Analyst Rating Dataset lookup, then Scoring Engine, then upsert; a
    symbol no longer present at upsert time is skipped, a store write may
    fail with [PersistenceError]. *)
Definition analyze (env : Env) (s : string) (store : Store) : Outcome * Store :=
  match fetch (provider env) s with
  | inl e => (Failure e, store)
  | inr m =>
      let r := lookup (dataset env) s in
      let sc := score (policy env) m r in
      match store !! s with
      | None => (Failure NotFound, store)
      | Some _ =>
          if writable env s then
            (Success sc,
             upsert {| symbol := s; metrics := m; ratings := r;
                       total_score := Some sc;
                       last_analyzed_at := Some (now env) |} store)
          else (Failure PersistenceError, store)
      end
  end.

(** Modelled from the spec: the batch as a fold over the snapshot, one
    result per symbol. *)
Fixpoint process (env : Env) (snapshot : list string) (store : Store)
    : BatchResult * Store :=
  match snapshot with
  | [] => ([], store)
  | s :: rest =>
      let '(o, store1) := analyze env s store in
      let '(results, store2) := process env rest store1 in
      ((s, o) :: results, store2)
  end.

(** Modelled from the spec: the store's current symbol list, taken once at
    the start of the batch; the orchestrator is missing. *)
Definition snapshot_of (store : Store) : list string := (map_to_list store).*1.

(** Modelled from the spec: [reanalyze_all() -> BatchResult]. *)
Definition reanalyze_all (env : Env) (store : Store) : BatchResult * Store :=
  process env (snapshot_of store) store.

End Engine.


(** * The vocabulary of the statements *)

(** ** Reading the result of a run *)

(** How the handler's promise settled, the state it left, what it did. *)
Definition settled_as {S A} (r : outcome A * S * list event) : outcome A := r.1.1.
Definition state_after {S A} (r : outcome A * S * list event) : S := r.1.2.
Definition trace_of {S A} (r : outcome A * S * list event) : list event := r.2.

(** The requests a trace contains, in order. *)
Fixpoint requests (t : list event) : list http_request :=
  match t with
  | [] => []
  | Requested r :: t' => r :: requests t'
  | _ :: t' => requests t'
  end.

(** The callbacks a trace contains, in order. *)
Fixpoint calls (t : list event) : list callback :=
  match t with
  | [] => []
  | Called c :: t' => c :: calls t'
  | _ :: t' => calls t'
  end.

(** ** The order of the list view *)

(** The sort key of the list view: [total_score || 0]. *)
Definition sort_key (stock : Stock) : Q := or_num (total_score stock) 0.

(** The order a comparator [(a, b) => key(b) - key(a)] sorts into. *)
Definition descending {A} (key : A → Q) (a b : A) : Prop := (key b <= key a)%Q.

(** Non-increasing [total_score || 0]. *)
Definition score_desc : Stock → Stock → Prop := descending sort_key.

(** ** A portfolio to exercise the statements on *)

(** A record with the given symbol and score. *)
Definition sample_stock (name : string) (score : jsnum) : Stock :=
  {| symbol := name; current_price := Num (150 # 1); pe_ratio := Num (25 # 1);
     roe := Num (3 # 2); total_score := score;
     analyst_ratings_buy := Num 4; analyst_ratings_hold := Num 2;
     analyst_ratings_sell := Num 0; analyst_ratings_strong_buy := Num 7;
     analyst_ratings_strong_sell := Null;
     rsi := Num (55 # 1); macd := Num (-(1 # 4)); volatility := Num (21 # 100);
     sentiment_score := Undefined; beta := Num (11 # 10) |}.

(** Five records: scored, never analyzed, scored, negative, scored 0. *)
Definition sample_portfolio : list Stock :=
  [ sample_stock "KO" (Num (62 # 10)); sample_stock "NEW" Null;
    sample_stock "AAPL" (Num (81 # 10)); sample_stock "LOSS" (Num (-(2 # 1)));
    sample_stock "ZERO" (Num 0) ].

(** A stand-in for the host's Number::toString that prints the integer
    part; it agrees with the host on the integers below 10^21. *)
Definition integer_to_string : NumberToString :=
  fun q => ((if Qle_bool 0 q then EmptyString else "-") ++ digits (Qfloor (Qabs q)))%string.

(** A stand-in for the host's toUpperCase that converts the ASCII letters
    and leaves every other byte; it agrees with the host on ASCII text. *)
Definition ascii_toUpperCase : ToUpperCase :=
  {| toUpperCase := upper_ascii_text; toUpperCase_ascii := fun s _ => eq_refl |}.

(** A server that gives every request the same answer, with callbacks that
    return. *)
Definition answering (r : outcome response) : world :=
  {| respond := fun _ => r; react := fun _ => Fulfilled tt |}.

(** ** The mounted Analyze button *)

(** What the callbacks of a resumed handler must be, by the answer. *)
Definition calls_on (o : outcome response) : list callback :=
  match o with
  | Fulfilled _ => [onAnalysisComplete]
  | Rejected _ => []
  end.

(** A continuation that, on any answer, finishes without throwing and
    without a further request, clears [loading], and calls
    [onAnalysisComplete] exactly when the answer is a success. *)
Definition finishes (cb : callback → outcome unit)
    (k : outcome response → prog AnalyzeStocksButton.State unit) : Prop :=
  ∀ o s, ∃ t,
    advance cb (k o) s
    = (Settled (Fulfilled tt), {| AnalyzeStocksButton.loading := false |}, t)
    ∧ requests t = [] ∧ calls t = calls_on o.

(** What holds of the mounted button between events: no error has left a
    handler, and either no call is open and [loading] is false, or one call
    is open, [loading] is true and its continuation finishes. *)
Definition button_inv (cb : callback → outcome unit)
    (c : AnalyzeStocksButton.config) : Prop :=
  AnalyzeStocksButton.escaped c = []
  ∧ ((AnalyzeStocksButton.waiting c = []
      ∧ AnalyzeStocksButton.loading (AnalyzeStocksButton.state c) = false)
     ∨ (∃ k, AnalyzeStocksButton.waiting c = [k]
             ∧ AnalyzeStocksButton.loading (AnalyzeStocksButton.state c) = true
             ∧ finishes cb k)).

(** The error axios rejects with when the server cannot be reached. *)
Definition network_error : Async.error :=
  {| message := "Network Error"; response_message := None |}.

(** Callbacks that return. *)
Definition returning : callback → outcome unit := fun _ => Fulfilled tt.

(** ** Symbols *)

(** Modelled from the spec: the validation contract's "alphanumeric"
    (section 4.1), on ASCII text: a digit or a letter.  No validator is
    among the sources. *)
Definition is_alnum (c : ascii) : bool :=
  let n := nat_of_ascii c in
  (((48 <=? n) && (n <=? 57)) || ((65 <=? n) && (n <=? 90))
   || ((97 <=? n) && (n <=? 122)))%nat.

(** Modelled from the spec: a symbol all of whose characters are
    alphanumeric; no validator is among the sources. *)
Fixpoint alphanumeric (s : string) : bool :=
  match s with
  | EmptyString => true
  | String c s' => is_alnum c && alphanumeric s'
  end.

(** The request [removeStock] sends for a symbol. *)
Definition remove_request (sym : string) : http_request :=
  Delete ("/remove-stock/" ++ sym).

(** A store tracking two symbols that were never analyzed. *)
Definition sample_store : Engine.Store :=
  {[ "AAPL" := Engine.placeholder "AAPL"; "KO" := Engine.placeholder "KO" ]}.

(** The list view once loaded, showing [l]. *)
Definition showing (l : list Stock) : StockList.State :=
  {| StockList.stocks := l; StockList.error := EmptyString;
     StockList.loading := false; StockList.selectedStock := None;
     StockList.detailViewOpen := false; StockList.removingSymbol := None |}.

(** ** Metric fields *)

(** The nine metric fields of a record. *)
Inductive metric_field : Type :=
| f_current_price | f_pe_ratio | f_roe | f_rsi | f_macd
| f_volatility | f_beta | f_sentiment_score | f_total_score.

(** Reading a metric field. *)
Definition get_metric (f : metric_field) (stock : Stock) : jsnum :=
  match f with
  | f_current_price => current_price stock
  | f_pe_ratio => pe_ratio stock
  | f_roe => roe stock
  | f_rsi => rsi stock
  | f_macd => macd stock
  | f_volatility => volatility stock
  | f_beta => beta stock
  | f_sentiment_score => sentiment_score stock
  | f_total_score => total_score stock
  end.

(** The same record with one metric field replaced. *)
Definition set_metric (f : metric_field) (v : jsnum) (stock : Stock) : Stock :=
  {| symbol := symbol stock;
     current_price := match f with f_current_price => v | _ => current_price stock end;
     pe_ratio := match f with f_pe_ratio => v | _ => pe_ratio stock end;
     roe := match f with f_roe => v | _ => roe stock end;
     total_score := match f with f_total_score => v | _ => total_score stock end;
     analyst_ratings_buy := analyst_ratings_buy stock;
     analyst_ratings_hold := analyst_ratings_hold stock;
     analyst_ratings_sell := analyst_ratings_sell stock;
     analyst_ratings_strong_buy := analyst_ratings_strong_buy stock;
     analyst_ratings_strong_sell := analyst_ratings_strong_sell stock;
     rsi := match f with f_rsi => v | _ => rsi stock end;
     macd := match f with f_macd => v | _ => macd stock end;
     volatility := match f with f_volatility => v | _ => volatility stock end;
     sentiment_score := match f with f_sentiment_score => v | _ => sentiment_score stock end;
     beta := match f with f_beta => v | _ => beta stock end |}.

(** A metric that is absent: the property is missing or [null]. *)
Definition absent (v : jsnum) : Prop := v = Undefined ∨ v = Null.

(** The cell of the detail dialog that shows a metric field. *)
Definition detail_label (f : metric_field) : string :=
  match f with
  | f_current_price => "Current Price"
  | f_pe_ratio => "P/E Ratio"
  | f_roe => "ROE"
  | f_rsi => "RSI"
  | f_macd => "MACD"
  | f_volatility => "Volatility"
  | f_beta => "Beta"
  | f_sentiment_score => "Sentiment Score"
  | f_total_score => "Total Score"
  end.

(** The text of the first row with the given label. *)
Fixpoint cell_of (label : string) (rows : list (string * string)) : option string :=
  match rows with
  | [] => None
  | (l, text) :: rows' => if String.eqb l label then Some text else cell_of label rows'
  end.

(** The text the detail dialog shows for a metric equal to zero. *)
Definition detail_zero (f : metric_field) : string :=
  match f with
  | f_current_price => "$0.00"
  | f_roe => "0.00%"
  | f_volatility => "0.000"
  | _ => "0.00"
  end.

(** The text the detail dialog shows for an absent metric. *)
Definition detail_absent (f : metric_field) : string :=
  match f with
  | f_current_price => "$N/A"
  | f_roe => "%"
  | _ => "N/A"
  end.

(** Two lists are sorted alike when they agree position by position up to
    this relation: the same record, or [zero] in the one and [none] in the
    other. *)
Definition same_place (zero none : Stock) (a b : Stock) : Prop :=
  a = b ∨ (a = zero ∧ b = none).

(** ** Histories of the portfolio store *)

(** Modelled from the spec: the operations that change the store of
    section 4.4; the store's code is missing. *)
Inductive store_op : Type :=
| op_add (s : string)
| op_remove (s : string)
| op_upsert (r : Engine.StockRecord).

(** Modelled from the spec: the store an operation leaves, whether it
    succeeds or fails; the store's code is missing. *)
Definition apply_op (store : Engine.Store) (o : store_op) : Engine.Store :=
  match o with
  | op_add s => (Engine.add s store).2
  | op_remove s => (Engine.remove s store).2
  | op_upsert r => Engine.upsert r store
  end.

(** Modelled from the spec: the store reached from the empty store by a
    history of operations; the store's code is missing. *)
Definition store_after (history : list store_op) : Engine.Store :=
  foldl apply_op ∅ history.

(** ** Batch outcomes and scoring *)

(** An outcome that is a [Failure]. *)
Definition is_failure (o : Engine.Outcome) : Prop := ∃ e, o = Engine.Failure e.

(** The record a successful pass writes. *)
Definition analyzed_record (env : Engine.Env) (s : string) (m : Engine.Metrics)
    (sc : Q) : Engine.StockRecord :=
  {| Engine.symbol := s; Engine.metrics := m;
     Engine.ratings := Engine.lookup (Engine.dataset env) s;
     Engine.total_score := Some sc;
     Engine.last_analyzed_at := Some (Engine.now env) |}.

(** A signal that is present on given inputs. *)
Definition present (m : Engine.Metrics) (r : Engine.RatingCounts)
    (c : Engine.component) : Prop :=
  is_Some (Engine.signal m r c).

(** Presence is decidable. *)
#[global] Instance present_dec m r c : Decision (present m r c) :=
  is_Some_dec (Engine.signal m r c).

(** ** The design document's example: AAPL is quoted, ZZZZ is unknown *)

(** A scoring policy: fundamentals weigh 3, analysts 2, the technical
    signals 1; sub-scores are the values clipped to [0, 10]. *)
Definition sample_policy : Engine.Policy :=
  {| Engine.weight := fun c =>
       match c with
       | Engine.PE | Engine.ROE => 3%Q
       | Engine.Analysts => 2%Q
       | _ => 1%Q
       end;
     Engine.sub_score := fun _ x => Qmax 0 (Qmin 10 x);
     Engine.unscored := 0%Q |}.

(** A quote with price, a P/E ratio of 0 and ROE; the rest unknown. *)
Definition aapl_quote : Engine.Metrics :=
  {| Engine.m_current_price := Some (150 # 1); Engine.m_pe_ratio := Some (0 # 1);
     Engine.m_roe := Some (8 # 1); Engine.m_rsi := None; Engine.m_macd := None;
     Engine.m_volatility := None; Engine.m_beta := None;
     Engine.m_sentiment_score := None |}.

(** The same quote with the P/E ratio unknown instead of 0. *)
Definition aapl_quote_no_pe : Engine.Metrics :=
  {| Engine.m_current_price := Some (150 # 1); Engine.m_pe_ratio := None;
     Engine.m_roe := Some (8 # 1); Engine.m_rsi := None; Engine.m_macd := None;
     Engine.m_volatility := None; Engine.m_beta := None;
     Engine.m_sentiment_score := None |}.

(** A provider that quotes AAPL, cannot be reached for FLKY and knows no
    other symbol. *)
Definition sample_provider (s : string) (attempt : nat) : Engine.reply :=
  if String.eqb s "AAPL" then Engine.Quote aapl_quote
  else if String.eqb s "FLKY" then Engine.Unreachable
  else Engine.UnknownSymbol.

(** No analyst ratings, every write succeeds. *)
Definition sample_env : Engine.Env :=
  {| Engine.provider := sample_provider;
     Engine.dataset := ∅;
     Engine.policy := sample_policy;
     Engine.writable := fun _ => true;
     Engine.now := 1700000000%Z |}.

(** Three tracked symbols, none analyzed yet. *)
Definition tracked : Engine.Store :=
  store_after [op_add "AAPL"; op_add "ZZZZ"; op_add "FLKY"].


(** ** The mounted list view

    [StockList] once mounted: the effect has started [fetchStocks]; from
    then on the page delivers clicks on the buttons of the rows it shows
    and the answers to the requests that are open, in any order.  The rows
    exist only in the table view (not under the spinner or the error text),
    and a Remove button that is disabled fires no click.  The dialog's close
    is admitted whenever the table is shown.  The component is mounted
    once; the repeated run of effects that React's development-only strict
    mode adds is not part of this. *)

Module StockListPage.

Record config : Type := {
  state : StockList.State;
  waiting : list (outcome response → prog StockList.State unit);
  log : list event;
  escaped : list Async.error
}.

Inductive input : Type :=
| ViewDetails (i : nat)
| CloseDetails
| Remove (i : nat)
| Answer (n : nat) (o : outcome response).

(** The component returns the table: it is neither loading nor showing an
    error. *)
Definition table_shown (s : StockList.State) : bool :=
  negb (StockList.loading s) && negb (truthy_string (StockList.error s)).

(** Running a handler, or a resumed continuation, up to its next [await].
    The list view is passed no callback. *)
Definition dispatch (p : prog StockList.State unit) (c : config) : config :=
  let '(st, s', t) := advance (fun _ => Fulfilled tt) p (state c) in
  {| state := s';
     waiting := match st with
                | Suspended _ k => waiting c ++ [k]
                | Settled _ => waiting c
                end;
     log := log c ++ t;
     escaped := match st with
                | Settled (Rejected e) => escaped c ++ [e]
                | _ => escaped c
                end |}.

(** [useEffect(() => { fetchStocks() }, [])] on the initial state. *)
Definition mounted : config :=
  dispatch StockList.fetchStocks
    {| state := StockList.initial; waiting := []; log := []; escaped := [] |}.

(** One event: a click on the [i]-th row's View Details or Remove button,
    the dialog's close, or the answer to the [n]-th open request. *)
Definition step (c : config) (i : input) : config :=
  match i with
  | ViewDetails i =>
      if table_shown (state c) then
        match StockList.stocks (state c) !! i with
        | Some stock => dispatch (StockList.handleViewDetails stock) c
        | None => c
        end
      else c
  | CloseDetails =>
      if table_shown (state c) then dispatch StockList.handleCloseDetails c else c
  | Remove i =>
      if table_shown (state c) then
        match StockList.stocks (state c) !! i with
        | Some stock =>
            if bool_decide (StockList.removingSymbol (state c) = Some (symbol stock))
            then c
            else dispatch (StockList.handleRemoveStock (state c) (symbol stock)) c
        | None => c
        end
      else c
  | Answer n o =>
      match waiting c !! n with
      | Some k =>
          dispatch (k o)
            {| state := state c; waiting := delete n (waiting c);
               log := log c; escaped := escaped c |}
      | None => c
      end
  end.

Definition steps (c : config) (inputs : list input) : config :=
  foldl step c inputs.

End StockListPage.

(** ** Vocabulary of the list view's properties *)

(** The [GET] requests of a trace. *)
Fixpoint gets (t : list event) : list string :=
  match t with
  | [] => []
  | Requested (Get url) :: t' => url :: gets t'
  | _ :: t' => gets t'
  end.

(** The records of a list with a given sort key, in the list's order. *)
Definition with_key (k : Q) (l : list Stock) : list Stock :=
  List.filter (fun stock => Qeq_bool (sort_key stock) k) l.

(** The state with the removal of [sym] marked as under way. *)
Definition removing (sym : string) (s : StockList.State) : StockList.State :=
  {| StockList.stocks := StockList.stocks s; StockList.error := StockList.error s;
     StockList.loading := StockList.loading s;
     StockList.selectedStock := StockList.selectedStock s;
     StockList.detailViewOpen := StockList.detailViewOpen s;
     StockList.removingSymbol := Some sym |}.

(** What the continuation of [fetchStocks] does on the answer, at any
    state: it finishes without throwing and without a further request,
    clears [loading], and installs the sorted array or the error text. *)
Definition fetch_like (k : outcome response → prog StockList.State unit) : Prop :=
  ∀ o s, ∃ t s',
    advance (fun _ => Fulfilled tt) (k o) s = (Settled (Fulfilled tt), s', t)
    ∧ requests t = []
    ∧ StockList.loading s' = false
    ∧ StockList.removingSymbol s' = StockList.removingSymbol s
    ∧ StockList.selectedStock s' = StockList.selectedStock s
    ∧ StockList.detailViewOpen s' = StockList.detailViewOpen s
    ∧ match o with
      | Fulfilled r =>
          StockList.stocks s' = sort StockList.by_score (StockList.stocksArray (data r))
          ∧ StockList.error s' = StockList.error s
      | Rejected _ =>
          StockList.stocks s' = StockList.stocks s
          ∧ StockList.error s' = "Failed to fetch stocks"
      end.

(** What the continuation of [handleRemoveStock], created by a render that
    showed [l0], does on the answer, at any state: it finishes without
    throwing and without a further request, clears [removingSymbol], and
    installs [l0] without the symbol or the error text. *)
Definition removal_of (l0 : list Stock) (sym : string)
    (k : outcome response → prog StockList.State unit) : Prop :=
  ∀ o s, ∃ t s',
    advance (fun _ => Fulfilled tt) (k o) s = (Settled (Fulfilled tt), s', t)
    ∧ requests t = []
    ∧ StockList.loading s' = StockList.loading s
    ∧ StockList.removingSymbol s' = None
    ∧ StockList.selectedStock s' = StockList.selectedStock s
    ∧ StockList.detailViewOpen s' = StockList.detailViewOpen s
    ∧ match o with
      | Fulfilled _ =>
          StockList.stocks s' = filter (fun stock => symbol stock ≠ sym) l0
          ∧ StockList.error s' = StockList.error s
      | Rejected e =>
          StockList.stocks s' = StockList.stocks s
          ∧ StockList.error s'
            = or_string (response_message e) "Failed to remove stock"
      end.

(** A continuation of a removal started from some list in score order. *)
Definition ordered_removal
    (k : outcome response → prog StockList.State unit) : Prop :=
  ∃ l0 sym, StronglySorted score_desc l0 ∧ removal_of l0 sym k.

(** What holds of the mounted list view between events: no error has left
    a handler, the list is in score order, one [GET /stocks] was sent, and
    either it is still open and the view is loading, or loading is over
    and only removals are open. *)
Definition page_inv (c : StockListPage.config) : Prop :=
  StockListPage.escaped c = []
  ∧ StronglySorted score_desc (StockList.stocks (StockListPage.state c))
  ∧ gets (StockListPage.log c) = ["/stocks"]
  ∧ ((StockList.loading (StockListPage.state c) = true
      ∧ ∃ k, StockListPage.waiting c = [k] ∧ fetch_like k)
     ∨ (StockList.loading (StockListPage.state c) = false
        ∧ Forall ordered_removal (StockListPage.waiting c))).

(** The five rating counts of a record. *)
Inductive count_field : Type :=
| c_strong_buy | c_buy | c_hold | c_sell | c_strong_sell.

(** Reading a rating count. *)
Definition get_count (f : count_field) (stock : Stock) : jsnum :=
  match f with
  | c_strong_buy => analyst_ratings_strong_buy stock
  | c_buy => analyst_ratings_buy stock
  | c_hold => analyst_ratings_hold stock
  | c_sell => analyst_ratings_sell stock
  | c_strong_sell => analyst_ratings_strong_sell stock
  end.

(** The same record with one rating count replaced. *)
Definition set_count (f : count_field) (v : jsnum) (stock : Stock) : Stock :=
  {| symbol := symbol stock;
     current_price := current_price stock;
     pe_ratio := pe_ratio stock;
     roe := roe stock;
     total_score := total_score stock;
     analyst_ratings_buy := match f with c_buy => v | _ => analyst_ratings_buy stock end;
     analyst_ratings_hold := match f with c_hold => v | _ => analyst_ratings_hold stock end;
     analyst_ratings_sell := match f with c_sell => v | _ => analyst_ratings_sell stock end;
     analyst_ratings_strong_buy :=
       match f with c_strong_buy => v | _ => analyst_ratings_strong_buy stock end;
     analyst_ratings_strong_sell :=
       match f with c_strong_sell => v | _ => analyst_ratings_strong_sell stock end;
     rsi := rsi stock;
     macd := macd stock;
     volatility := volatility stock;
     sentiment_score := sentiment_score stock;
     beta := beta stock |}.

(** The row of the detail dialog that shows a rating count. *)
Definition count_label (f : count_field) : string :=
  match f with
  | c_strong_buy => "Strong Buy"
  | c_buy => "Buy"
  | c_hold => "Hold"
  | c_sell => "Sell"
  | c_strong_sell => "Strong Sell"
  end.

(** The console errors of a trace, in order. *)
Fixpoint errors_logged (t : list event) : list string :=
  match t with
  | [] => []
  | Did (console_error msg) :: t' => msg :: errors_logged t'
  | _ :: t' => errors_logged t'
  end.


(** A service call that passes the server's answer through: it sends the
    one request [r], resolves with the response's [data], rejects with the
    very error the request was rejected with after logging [label] once,
    and leaves the component state alone. *)
Definition passes_through {S} (w : world) (p : prog S payload)
    (r : http_request) (label : string) : Prop :=
  ∀ s : S,
    settled_as (run w p s)
    = match respond w r with
      | Fulfilled resp => Fulfilled (data resp)
      | Rejected e => Rejected e
      end
    ∧ state_after (run w p s) = s
    ∧ requests (trace_of (run w p s)) = [r]
    ∧ errors_logged (trace_of (run w p s))
      = match respond w r with
        | Fulfilled _ => []
        | Rejected _ => [label]
        end.


(** The answer that carries the sample portfolio, and an answer without
    content. *)
Definition portfolio_answer : outcome response :=
  Fulfilled {| data := Records sample_portfolio |}.

Definition empty_answer : outcome response :=
  Fulfilled {| data := Other NNull |}.


(** The four metric columns of the table. *)
Inductive list_column : Type :=
| col_price | col_pe | col_roe | col_score.

(** The metric a column shows. *)
Definition column_field (col : list_column) : metric_field :=
  match col with
  | col_price => f_current_price
  | col_pe => f_pe_ratio
  | col_roe => f_roe
  | col_score => f_total_score
  end.

(** The text of a record's cell in a column of the table. *)
Definition list_cell `{NumberToString} (col : list_column) (stock : Stock) : string :=
  match col with
  | col_price => StockList.price_cell stock
  | col_pe => StockList.pe_cell stock
  | col_roe => StockList.roe_cell stock
  | col_score => StockList.score_cell stock
  end.

(** The symbols of the rows on screen whose Remove button is disabled;
    under the spinner and under the error text there are no rows. *)
Definition disabled_removes (v : StockList.view) : list string :=
  match v with
  | StockList.Portfolio table _ =>
      map StockList.row_symbol
        (filter (fun r => StockList.remove_disabled r = true) table)
  | _ => []
  end.

(** The add-stock request for a symbol as typed. *)
Definition add_request `{ToUpperCase} (typed : string) : http_request :=
  Post "/stocks" [("symbol", toUpperCase typed)].


(** * Properties *)

(** ** Array.prototype.sort *)

Section SortFacts.
Context {A : Type} (comparefn : A → A → Q).

Lemma insert_perm (x : A) (l : list A) : insert comparefn x l ≡ₚ x :: l.
Proof.
  induction l as [|y l IH]; simpl; [done|].
  destruct (Qle_bool (comparefn x y) 0); [done|].
  rewrite IH. apply Permutation_swap.
Qed.

Lemma sort_perm (l : list A) : sort comparefn l ≡ₚ l.
Proof.
  induction l as [|x l IH]; simpl; [done|].
  unfold sort in IH. rewrite insert_perm. by f_equiv.
Qed.

(** The order the comparator induces, for comparators that are differences
    of a numeric key, as [by_score] is. *)
Context (key : A → Q).
Hypothesis comparefn_key : ∀ a b, comparefn a b = (key b - key a)%Q.

Lemma comparefn_le (x y : A) :
  Qle_bool (comparefn x y) 0 = true ↔ descending key x y.
Proof using comparefn_key.
  rewrite Qle_bool_iff, comparefn_key. unfold descending.
  split; intros Hle; lra.
Qed.

Lemma insert_hd_rel (x y : A) (l : list A) :
  descending key y x → HdRel (descending key) y l →
  HdRel (descending key) y (insert comparefn x l).
Proof.
  intros Hyx Hl. destruct l as [|z l]; simpl; [by constructor|].
  destruct (Qle_bool (comparefn x z) 0); constructor; [done|].
  by inversion Hl.
Qed.

Lemma insert_sorted (x : A) (l : list A) :
  Sorted (descending key) l → Sorted (descending key) (insert comparefn x l).
Proof using comparefn_key.
  induction 1 as [|y l Hl IH Hy]; simpl.
  - by repeat constructor.
  - destruct (Qle_bool (comparefn x y) 0) eqn:Hc.
    + apply comparefn_le in Hc.
      constructor; [by constructor | by constructor].
    + constructor; [done|]. apply insert_hd_rel; [|done].
      unfold descending. destruct (Qlt_le_dec (key x) (key y)) as [Hlt|Hle].
      * by apply Qlt_le_weak.
      * apply comparefn_le in Hle. congruence.
Qed.

Lemma sort_sorted (l : list A) : Sorted (descending key) (sort comparefn l).
Proof using comparefn_key.
  induction l as [|x l IH]; simpl; [constructor|].
  by apply insert_sorted.
Qed.

End SortFacts.

(** ** StockList: loading the portfolio *)

Lemma by_score_key (a b : Stock) : StockList.by_score a b = (sort_key b - sort_key a)%Q.
Proof. reflexivity. Qed.

(** What [fetchStocks] does, by the answer to [GET /stocks]. *)
Lemma fetchStocks_fulfilled (w : world) (s : StockList.State) (r : response) :
  respond w (Get "/stocks") = Fulfilled r →
  settled_as (run w StockList.fetchStocks s) = Fulfilled tt
  ∧ StockList.stocks (state_after (run w StockList.fetchStocks s))
    = sort StockList.by_score (StockList.stocksArray (data r))
  ∧ StockList.loading (state_after (run w StockList.fetchStocks s)) = false
  ∧ StockList.error (state_after (run w StockList.fetchStocks s)) = StockList.error s.
Proof.
  intros Hr. unfold settled_as, state_after. cbn. rewrite Hr. cbn. done.
Qed.

Lemma fetchStocks_rejected (w : world) (s : StockList.State) (e : Async.error) :
  respond w (Get "/stocks") = Rejected e →
  settled_as (run w StockList.fetchStocks s) = Fulfilled tt
  ∧ StockList.stocks (state_after (run w StockList.fetchStocks s)) = StockList.stocks s
  ∧ StockList.loading (state_after (run w StockList.fetchStocks s)) = false
  ∧ StockList.error (state_after (run w StockList.fetchStocks s)) = "Failed to fetch stocks".
Proof.
  intros Hr. unfold settled_as, state_after. cbn. rewrite Hr. cbn. done.
Qed.

Lemma Sorted_adjacent {A} (R : A → A → Prop) (l : list A) (i : nat) (a b : A) :
  Sorted R l → l !! i = Some a → l !! S i = Some b → R a b.
Proof.
  intros Hs. revert i. induction Hs as [|x l Hl IH Hx]; intros i Ha Hb; [done|].
  destruct i as [|i].
  - simpl in Ha. injection Ha as ->.
    destruct l as [|y l]; [done|]. simpl in Hb. injection Hb as ->.
    by inversion Hx.
  - by apply (IH i).
Qed.

(** C8: for every array of records that [getAllStocks] returns, the list
    that [fetchStocks] installs as the display state is a permutation of
    that array in which any two adjacent records [a], [b] satisfy
    [(a.total_score || 0) >= (b.total_score || 0)]; a record whose
    [total_score] is null, undefined or otherwise falsy has sort key 0. *)
Theorem fetchStocks_sorted_by_score (w : world) (s : StockList.State) (l : list Stock) :
  respond w (Get "/stocks") = Fulfilled {| data := Records l |} →
  let shown := StockList.stocks (state_after (run w StockList.fetchStocks s)) in
  shown ≡ₚ l
  ∧ Sorted score_desc shown
  ∧ (∀ i a b, shown !! i = Some a → shown !! S i = Some b →
       (or_num (total_score b) 0 <= or_num (total_score a) 0)%Q)
  ∧ (∀ stock, truthy (total_score stock) = false → sort_key stock = 0%Q).
Proof.
  intros Hr shown.
  destruct (fetchStocks_fulfilled w s _ Hr) as (_ & Hshown & _).
  assert (Hsorted : Sorted score_desc shown).
  { subst shown. rewrite Hshown. simpl.
    apply (sort_sorted StockList.by_score sort_key by_score_key). }
  split; [|split; [|split]].
  - subst shown. rewrite Hshown. apply sort_perm.
  - exact Hsorted.
  - intros i a b Ha Hb. exact (Sorted_adjacent score_desc shown i a b Hsorted Ha Hb).
  - intros stock Hfalsy. unfold sort_key, or_num, if_truthy.
    destruct (total_score stock); [done..|]. by rewrite Hfalsy.
Qed.

Lemma fetchStocks_sorted_by_score_witness :
  let w := answering (Fulfilled {| data := Records sample_portfolio |}) in
  let shown := StockList.stocks (state_after (run w StockList.fetchStocks StockList.initial)) in
  respond w (Get "/stocks") = Fulfilled {| data := Records sample_portfolio |}
  ∧ shown ≡ₚ sample_portfolio
  ∧ Sorted score_desc shown
  (* the second and third record shown: KO, then the never-analyzed NEW *)
  ∧ shown !! 1%nat = Some (sample_stock "KO" (Num (62 # 10)))
  ∧ shown !! 2%nat = Some (sample_stock "NEW" Null)
  ∧ (or_num Null 0 <= or_num (Num (62 # 10)) 0)%Q
  ∧ truthy (total_score (sample_stock "NEW" Null)) = false
  ∧ sort_key (sample_stock "NEW" Null) = 0%Q.
Proof.
  intros w shown.
  assert (Hresp : respond w (Get "/stocks") = Fulfilled {| data := Records sample_portfolio |})
    by reflexivity.
  assert (Hko : shown !! 1%nat = Some (sample_stock "KO" (Num (62 # 10)))) by reflexivity.
  assert (Hnew : shown !! 2%nat = Some (sample_stock "NEW" Null)) by reflexivity.
  assert (Hfalsy : truthy (total_score (sample_stock "NEW" Null)) = false) by reflexivity.
  destruct (fetchStocks_sorted_by_score w StockList.initial sample_portfolio Hresp)
    as (Hperm & Hsorted & Hadjacent & Hkey).
  split; [exact Hresp|]. split; [exact Hperm|]. split; [exact Hsorted|].
  split; [exact Hko|]. split; [exact Hnew|].
  split; [exact (Hadjacent 1%nat _ _ Hko Hnew)|].
  split; [exact Hfalsy|exact (Hkey _ Hfalsy)].
Defined.

(** The order the sample portfolio is shown in: the never-analyzed record
    and the record scored 0 share key 0 and keep their arrival order. *)
Example fetchStocks_sample_order :
  map symbol (StockList.stocks (state_after
      (run (answering (Fulfilled {| data := Records sample_portfolio |}))
           StockList.fetchStocks StockList.initial)))
  = ["AAPL"; "KO"; "NEW"; "ZERO"; "LOSS"].
Proof. reflexivity. Qed.

(** C9: if the body of the [/stocks] response is not an array,
    [fetchStocks] does not throw and installs the empty list as the display
    state; whatever the answer, success or failure, the handler completes
    normally and the loading flag is cleared. *)
Theorem fetchStocks_non_array_empty (w : world) (s : StockList.State) :
  settled_as (run w StockList.fetchStocks s) = Fulfilled tt
  ∧ StockList.loading (state_after (run w StockList.fetchStocks s)) = false
  ∧ (∀ v, respond w (Get "/stocks") = Fulfilled {| data := Other v |} →
       StockList.stocks (state_after (run w StockList.fetchStocks s)) = []).
Proof.
  destruct (respond w (Get "/stocks")) as [r|e] eqn:Hr.
  - destruct (fetchStocks_fulfilled w s r Hr) as (Hok & Hshown & Hload & _).
    repeat split; [done..|].
    intros v Hv. injection Hv as ->. by rewrite Hshown.
  - destruct (fetchStocks_rejected w s e Hr) as (Hok & _ & Hload & _).
    repeat split; done.
Qed.

Lemma fetchStocks_non_array_empty_witness :
  let w := answering (Fulfilled {| data := Other (NObject [("error", "Database unavailable")]) |}) in
  let s := {| StockList.stocks := sample_portfolio; StockList.error := EmptyString;
              StockList.loading := true; StockList.selectedStock := None;
              StockList.detailViewOpen := false; StockList.removingSymbol := None |} in
  respond w (Get "/stocks")
    = Fulfilled {| data := Other (NObject [("error", "Database unavailable")]) |}
  ∧ settled_as (run w StockList.fetchStocks s) = Fulfilled tt
  ∧ StockList.loading (state_after (run w StockList.fetchStocks s)) = false
  ∧ StockList.stocks (state_after (run w StockList.fetchStocks s)) = [].
Proof.
  intros w s. split; [reflexivity|].
  destruct (fetchStocks_non_array_empty w s) as (Hok & Hload & Hempty).
  split; [exact Hok|]. split; [exact Hload|].
  apply (Hempty (NObject [("error", "Database unavailable")])). reflexivity.
Defined.

(** ** The two readings of a handler agree *)

(** Running to completion is running to the first [await], then running
    the continuation on the server's answer. *)
Lemma run_advance {S A} (w : world) (p : prog S A) (s : S) :
  run w p s =
  match advance (react w) p s with
  | (Settled o, s', t) => (o, s', t)
  | (Suspended r k, s', t) =>
      let '(o, s'', t') := run w (k (respond w r)) s' in (o, s'', (t ++ t')%list)
  end.
Proof.
  revert s. induction p as [a|e|f k IH|ev k IH|c k IH|r k IH]; intros s; simpl.
  - done.
  - done.
  - apply IH.
  - rewrite IH. destruct (advance (react w) k s) as [[[o|r k'] s'] t]; [done|].
    by destruct (run w (k' (respond w r)) s') as [[o s''] t'].
  - rewrite IH.
    destruct (advance (react w) (k (react w c)) s) as [[[o|r k'] s'] t]; [done|].
    by destruct (run w (k' (respond w r)) s') as [[o s''] t'].
  - by destruct (run w (k (respond w r)) s) as [[o s''] t'].
Qed.

(** ** AnalyzeStocksButton *)

Section AnalyzeButton.
Import AnalyzeStocksButton.
Context (cb : callback → outcome unit).

Lemma handleAnalyze_advance (s : State) :
  ∃ k, advance cb handleAnalyze s
       = (Suspended (Post "/analyze-stocks" []) k, {| loading := true |},
          [Did (console_log "Starting stock analysis...");
           Did (console_log "Sending request to:");
           Requested (Post "/analyze-stocks" [])])
       ∧ finishes cb k.
Proof.
  eexists. split; [reflexivity|].
  intros [r|e] s'; cbn.
  - destruct (cb onAnalysisComplete) as [[]|e'] eqn:Hcb; cbn;
      eexists; (split; [reflexivity|]); done.
  - eexists. split; [reflexivity|]. done.
Qed.

Lemma button_inv_mounted : button_inv cb mounted.
Proof. split; [done|]. by left. Qed.

Lemma button_inv_step (c : config) (i : input) :
  button_inv cb c → button_inv cb (step cb c i).
Proof.
  intros [Hesc [[Hw Hl]|(k & Hw & Hl & Hk)]]; destruct i as [|o]; simpl.
  - rewrite Hl. unfold dispatch.
    destruct (handleAnalyze_advance (state c)) as (k & -> & Hk).
    split; [done|]. right. exists k. by rewrite Hw.
  - rewrite Hw. split; [done|]. by left.
  - rewrite Hl. split; [done|]. right. by exists k.
  - rewrite Hw. unfold dispatch. simpl.
    destruct (Hk o (state c)) as (t & -> & _). simpl.
    split; [done|]. by left.
Qed.

Lemma button_inv_steps (inputs : list input) (c : config) :
  button_inv cb c → button_inv cb (steps cb c inputs).
Proof.
  revert c. induction inputs as [|i inputs IH]; intros c Hc; simpl; [done|].
  apply IH. by apply button_inv_step.
Qed.

End AnalyzeButton.

Section AnalyzeButtonRuns.
Import AnalyzeStocksButton.

(** One pass through [handleAnalyze], run to completion. *)
Lemma handleAnalyze_run (w : world) (s : State) :
  settled_as (run w handleAnalyze s) = Fulfilled tt
  ∧ state_after (run w handleAnalyze s) = {| loading := false |}
  ∧ requests (trace_of (run w handleAnalyze s)) = [Post "/analyze-stocks" []]
  ∧ calls (trace_of (run w handleAnalyze s))
    = calls_on (respond w (Post "/analyze-stocks" [])).
Proof.
  unfold settled_as, state_after, trace_of. cbn.
  destruct (respond w (Post "/analyze-stocks" [])) as [r|e]; cbn.
  - destruct (react w onAnalysisComplete) as [[]|e']; cbn; done.
  - done.
Qed.

(** C10: in every state the mounted button can reach, at most one
    [analyzeStocks] call is open and [loading] is true exactly while one is;
    the button is disabled exactly when [loading] is true, so a click while
    a call is open starts nothing; the answer to the open call clears
    [loading] whether it is a success or a failure, and
    [onAnalysisComplete] is called if and only if it is a success; no error
    ever leaves the handler.  Run to completion, the handler issues one
    request, ends with [loading] false and calls back exactly on success. *)
Theorem handleAnalyze_loading_discipline
    (cb : callback → outcome unit) (inputs : list input) :
  let c := steps cb mounted inputs in
  (length (waiting c) ≤ 1)%nat
  ∧ (loading (state c) = true ↔ waiting c ≠ [])
  ∧ disabled (render (state c)) = loading (state c)
  ∧ (waiting c ≠ [] → step cb c Click = c)
  ∧ (waiting c = [] →
       ∃ t, log (step cb c Click) = (log c ++ t)%list
            ∧ requests t = [Post "/analyze-stocks" []] ∧ calls t = []
            ∧ loading (state (step cb c Click)) = true
            ∧ length (waiting (step cb c Click)) = 1%nat)
  ∧ (∀ o, waiting c ≠ [] →
       ∃ t, log (step cb c (Answer o)) = (log c ++ t)%list
            ∧ requests t = [] ∧ calls t = calls_on o
            ∧ loading (state (step cb c (Answer o))) = false
            ∧ waiting (step cb c (Answer o)) = [])
  ∧ escaped c = []
  ∧ (∀ w s,
       settled_as (run w handleAnalyze s) = Fulfilled tt
       ∧ loading (state_after (run w handleAnalyze s)) = false
       ∧ requests (trace_of (run w handleAnalyze s)) = [Post "/analyze-stocks" []]
       ∧ (onAnalysisComplete ∈ calls (trace_of (run w handleAnalyze s))
          ↔ ∃ r, respond w (Post "/analyze-stocks" []) = Fulfilled r)).
Proof.
  intros c.
  assert (Hinv : button_inv cb c) by apply button_inv_steps, button_inv_mounted.
  destruct Hinv as [Hesc Hcases].
  repeat split.
  - destruct Hcases as [[-> _]|(k & -> & _)]; simpl; lia.
  - intros Hl. destruct Hcases as [[_ Hl']|(k & -> & _)]; [congruence|done].
  - intros Hw. destruct Hcases as [[Hw' _]|(k & _ & Hl & _)]; done.
  - intros Hw. destruct Hcases as [[Hw' _]|(k & _ & Hl & _)]; [done|].
    simpl. by rewrite Hl.
  - intros Hw. destruct Hcases as [[_ Hl]|(k & Hw' & _)]; [|congruence].
    simpl. rewrite Hl. unfold dispatch.
    destruct (handleAnalyze_advance cb (state c)) as (k & -> & Hk).
    eexists. split; [reflexivity|]. rewrite Hw. done.
  - intros o Hw. destruct Hcases as [[Hw' _]|(k & Hw' & _ & Hk)]; [done|].
    simpl. rewrite Hw'. unfold dispatch. simpl.
    destruct (Hk o (state c)) as (t & -> & Hreq & Hcalls). simpl.
    exists t. done.
  - exact Hesc.
  - apply handleAnalyze_run.
  - destruct (handleAnalyze_run w s) as (_ & -> & _). done.
  - apply handleAnalyze_run.
  - destruct (handleAnalyze_run w s) as (_ & _ & _ & ->).
    destruct (respond w (Post "/analyze-stocks" [])) as [r|e]; simpl.
    + intros _. by exists r.
    + intros Hin. by apply elem_of_nil in Hin.
  - destruct (handleAnalyze_run w s) as (_ & _ & _ & ->).
    intros [r ->]. simpl. apply list_elem_of_here.
Qed.

End AnalyzeButtonRuns.

Lemma handleAnalyze_loading_discipline_witness :
  let idle := AnalyzeStocksButton.steps returning AnalyzeStocksButton.mounted [] in
  let c := AnalyzeStocksButton.steps returning AnalyzeStocksButton.mounted
             [AnalyzeStocksButton.Click] in
  (* a click on the idle button starts the call *)
  (AnalyzeStocksButton.waiting idle = []
   ∧ ∃ t, AnalyzeStocksButton.log
            (AnalyzeStocksButton.step returning idle AnalyzeStocksButton.Click)
          = (AnalyzeStocksButton.log idle ++ t)%list
          ∧ requests t = [Post "/analyze-stocks" []] ∧ calls t = []
          ∧ AnalyzeStocksButton.loading (AnalyzeStocksButton.state
              (AnalyzeStocksButton.step returning idle AnalyzeStocksButton.Click)) = true
          ∧ length (AnalyzeStocksButton.waiting
              (AnalyzeStocksButton.step returning idle AnalyzeStocksButton.Click)) = 1%nat)
  (* while it is open a click starts nothing, and a failure clears loading *)
  ∧ AnalyzeStocksButton.waiting c ≠ []
  ∧ AnalyzeStocksButton.step returning c AnalyzeStocksButton.Click = c
  ∧ ∃ t, AnalyzeStocksButton.log
           (AnalyzeStocksButton.step returning c
              (AnalyzeStocksButton.Answer (Rejected network_error)))
         = (AnalyzeStocksButton.log c ++ t)%list
         ∧ requests t = [] ∧ calls t = []
         ∧ AnalyzeStocksButton.loading (AnalyzeStocksButton.state
             (AnalyzeStocksButton.step returning c
                (AnalyzeStocksButton.Answer (Rejected network_error)))) = false
         ∧ AnalyzeStocksButton.waiting
             (AnalyzeStocksButton.step returning c
                (AnalyzeStocksButton.Answer (Rejected network_error))) = [].
Proof.
  intros idle c.
  assert (Hidle : AnalyzeStocksButton.waiting idle = []) by reflexivity.
  assert (Hopen : AnalyzeStocksButton.waiting c ≠ []) by (simpl; discriminate).
  destruct (handleAnalyze_loading_discipline returning [])
    as (_ & _ & _ & _ & Hstart & _).
  destruct (handleAnalyze_loading_discipline returning [AnalyzeStocksButton.Click])
    as (_ & _ & _ & Hclick & _ & Hanswer & _).
  split; [split; [exact Hidle|exact (Hstart Hidle)]|].
  split; [exact Hopen|]. split; [exact (Hclick Hopen)|].
  exact (Hanswer (Rejected network_error) Hopen).
Defined.

(** A session: a click, a second click while the call is open, a failure,
    a third click, a success.  Two requests are sent and the callback runs
    once. *)
Example handleAnalyze_session :
  let c := AnalyzeStocksButton.steps returning AnalyzeStocksButton.mounted
             [ AnalyzeStocksButton.Click; AnalyzeStocksButton.Click;
               AnalyzeStocksButton.Answer (Rejected network_error);
               AnalyzeStocksButton.Click;
               AnalyzeStocksButton.Answer (Fulfilled {| data := Other NNull |}) ] in
  requests (AnalyzeStocksButton.log c)
    = [Post "/analyze-stocks" []; Post "/analyze-stocks" []]
  ∧ calls (AnalyzeStocksButton.log c) = [onAnalysisComplete]
  ∧ AnalyzeStocksButton.loading (AnalyzeStocksButton.state c) = false.
Proof. repeat split; reflexivity. Qed.

(** ** AddStockForm *)

Lemma handleSubmit_run `{ToUpperCase} (w : world) (st : AddStockForm.State) :
  settled_as (run w (AddStockForm.handleSubmit st) st) = Fulfilled tt
  ∧ requests (trace_of (run w (AddStockForm.handleSubmit st) st))
    = match AddStockForm.symbol st with
      | EmptyString => []
      | _ => [Post "/stocks" [("symbol", toUpperCase (AddStockForm.symbol st))]]
      end.
Proof.
  unfold settled_as, trace_of. destruct st as [[|c s]]; cbn; [done|].
  destruct (respond w _) as [r|e]; cbn; [|done].
  destruct (react w onStockAdded) as [[]|e]; cbn; done.
Qed.

Lemma add_stores_under_symbol (s : string) (store store' : Engine.Store) :
  Engine.add s store = (inr tt, store') →
  store' !! s = Some (Engine.placeholder s)
  ∧ Engine.symbol (Engine.placeholder s) = s.
Proof.
  unfold Engine.add. destruct (store !! s); [done|].
  intros [= <-]. split; [apply lookup_insert_eq | done].
Qed.

(** C7 (as amended): for every input string [s], [handleSubmit] sends
    nothing when [s] is empty and otherwise sends exactly one add-stock
    request, whose symbol is exactly [s.toUpperCase()], whatever the host's
    conversion does outside ASCII; a store that accepts the submitted symbol
    keeps the record under that upper-cased symbol. *)
Theorem handleSubmit_submits_uppercased `{ToUpperCase}
    (w : world) (st : AddStockForm.State) :
  let s := AddStockForm.symbol st in
  let sent := requests (trace_of (run w (AddStockForm.handleSubmit st) st)) in
  (s = EmptyString → sent = [])
  ∧ (s ≠ EmptyString → sent = [Post "/stocks" [("symbol", toUpperCase s)]])
  ∧ (∀ store store', Engine.add (toUpperCase s) store = (inr tt, store') →
       ∃ r, store' !! toUpperCase s = Some r ∧ Engine.symbol r = toUpperCase s).
Proof.
  intros s sent. destruct (handleSubmit_run w st) as [_ Hsent].
  fold s in Hsent. fold sent in Hsent.
  split; [|split].
  - intros Hs. by rewrite Hs in Hsent.
  - intros Hs. destruct s; [done|exact Hsent].
  - intros store store' Hadd. exists (Engine.placeholder (toUpperCase s)).
    by apply (add_stores_under_symbol _ store store').
Qed.

Lemma handleSubmit_submits_uppercased_witness :
  let w := answering (Fulfilled {| data := Other (NObject [("message", "Stock added")]) |}) in
  let st := {| AddStockForm.symbol := "aapl" |} in
  (* an empty field sends nothing *)
  (AddStockForm.symbol AddStockForm.initial = EmptyString
   ∧ requests (trace_of (run w (@AddStockForm.handleSubmit ascii_toUpperCase
                                   AddStockForm.initial)
                           AddStockForm.initial)) = [])
  (* "aapl" is sent as "AAPL" and stored under "AAPL" *)
  ∧ AddStockForm.symbol st ≠ EmptyString
  ∧ requests (trace_of (run w (@AddStockForm.handleSubmit ascii_toUpperCase st) st))
    = [Post "/stocks" [("symbol", "AAPL")]]
  ∧ Engine.add "AAPL" ∅ = (inr tt, {[ "AAPL" := Engine.placeholder "AAPL" ]})
  ∧ ∃ r, ({[ "AAPL" := Engine.placeholder "AAPL" ]} : Engine.Store) !! "AAPL" = Some r
         ∧ Engine.symbol r = "AAPL".
Proof.
  intros w st.
  assert (Hempty : AddStockForm.symbol AddStockForm.initial = EmptyString) by reflexivity.
  assert (Hne : AddStockForm.symbol st ≠ EmptyString) by discriminate.
  assert (Hadd : Engine.add "AAPL" ∅ = (inr tt, {[ "AAPL" := Engine.placeholder "AAPL" ]}))
    by reflexivity.
  destruct (@handleSubmit_submits_uppercased ascii_toUpperCase w AddStockForm.initial)
    as (Hnothing & _).
  destruct (@handleSubmit_submits_uppercased ascii_toUpperCase w st)
    as (_ & Hsent & Hstore).
  split; [split; [exact Hempty|exact (Hnothing Hempty)]|].
  split; [exact Hne|]. split; [exact (Hsent Hne)|]. split; [exact Hadd|].
  exact (Hstore ∅ _ Hadd).
Defined.

(** C7, as stated, fails: the ticker BRK.B typed in lower case is ASCII
    text, so every host submits it as "BRK.B", which is not alphanumeric. *)
Lemma handleSubmit_submits_non_alphanumeric :
  let w := answering (Fulfilled {| data := Other NNull |}) in
  let st := {| AddStockForm.symbol := "brk.b" |} in
  (∀ host : ToUpperCase,
     requests (trace_of (run w (AddStockForm.handleSubmit st) st))
     = [Post "/stocks" [("symbol", "BRK.B")]])
  ∧ alphanumeric "BRK.B" = false.
Proof.
  intros w st. split; [|reflexivity].
  intros host. destruct (handleSubmit_run w st) as [_ ->]. simpl.
  by rewrite toUpperCase_ascii.
Qed.

(** ** Removing a stock *)

(** What [handleRemoveStock] leaves, for the handler created by the render
    of [shown] and run on the state [s]. *)
Lemma handleRemoveStock_run (w : world) (shown s : StockList.State) (sym : string) :
  let r := run w (StockList.handleRemoveStock shown sym) s in
  settled_as r = Fulfilled tt
  ∧ StockList.removingSymbol (state_after r) = None
  ∧ requests (trace_of r) = [remove_request sym]
  ∧ match respond w (remove_request sym) with
    | Fulfilled _ =>
        StockList.stocks (state_after r)
        = filter (fun stock => symbol stock ≠ sym) (StockList.stocks shown)
        ∧ StockList.error (state_after r) = StockList.error s
    | Rejected e =>
        StockList.stocks (state_after r) = StockList.stocks s
        ∧ StockList.error (state_after r)
          = or_string (response_message e) "Failed to remove stock"
    end.
Proof.
  unfold settled_as, state_after, trace_of, remove_request. cbn.
  destruct (respond w _) as [resp|e]; cbn; done.
Qed.

Lemma remove_untracked (sym : string) (store : Engine.Store) :
  store !! sym = None → Engine.remove sym store = (inl Engine.NotFound, store).
Proof. intros H. unfold Engine.remove. by rewrite H. Qed.

Lemma remove_failed (sym : string) (store store' : Engine.Store) (e : Engine.error) :
  Engine.remove sym store = (inl e, store') →
  e = Engine.NotFound ∧ store !! sym = None ∧ store' = store.
Proof.
  unfold Engine.remove. destruct (store !! sym) eqn:Hs; [done|].
  by intros [= <- <-].
Qed.

Lemma remove_succeeded (sym : string) (store store' : Engine.Store) :
  Engine.remove sym store = (inr tt, store') →
  is_Some (store !! sym)
  ∧ store' !! sym = None
  ∧ (∀ k, k ≠ sym → store' !! k = store !! k)
  ∧ size store = S (size store').
Proof.
  unfold Engine.remove. destruct (store !! sym) as [r|] eqn:Hs; [|done].
  intros [= <-]. split; [done|]. split; [apply lookup_delete_eq|].
  split.
  - intros k Hk. by apply lookup_delete_ne.
  - rewrite <- (insert_delete_id store sym r Hs) at 1.
    apply map_size_insert_None, lookup_delete_eq.
Qed.

(** The store's [remove], and [handleRemoveStock] when it runs on the
    state of the render that created it, with no other removal installed
    in between.  When [remove(s)] fails the tracked set is unchanged, and
    removing an untracked symbol fails with [NotFound]; when it succeeds,
    exactly the record with symbol [s] is gone and every other record is
    unchanged.  Under that condition the handler leaves the shown records
    untouched when the request fails and, when it succeeds, shows exactly
    the records with another symbol, unchanged and in their order. *)
Lemma remove_changes_only_its_symbol
    (w : world) (s : StockList.State) (store : Engine.Store) (sym : string) :
  let shown_after :=
    StockList.stocks (state_after (run w (StockList.handleRemoveStock s sym) s)) in
  (store !! sym = None → Engine.remove sym store = (inl Engine.NotFound, store))
  ∧ (∀ e store', Engine.remove sym store = (inl e, store') → store' = store)
  ∧ (∀ store', Engine.remove sym store = (inr tt, store') →
       store' !! sym = None
       ∧ (∀ k, k ≠ sym → store' !! k = store !! k)
       ∧ size store = S (size store'))
  ∧ (∀ e, respond w (remove_request sym) = Rejected e →
       shown_after = StockList.stocks s)
  ∧ (∀ resp, respond w (remove_request sym) = Fulfilled resp →
       shown_after = filter (fun stock => symbol stock ≠ sym) (StockList.stocks s)
       ∧ (∀ stock, stock ∈ shown_after ↔ stock ∈ StockList.stocks s ∧ symbol stock ≠ sym)
       ∧ sublist shown_after (StockList.stocks s)).
Proof.
  intros shown_after.
  destruct (handleRemoveStock_run w s s sym) as (_ & _ & _ & Hshown).
  fold shown_after in Hshown.
  split; [apply remove_untracked|]. split.
  { intros e store' Hrm. by destruct (remove_failed _ _ _ _ Hrm) as (_ & _ & ->). }
  split.
  { intros store' Hrm. by destruct (remove_succeeded _ _ _ Hrm) as (_ & ? & ? & ?). }
  split.
  - intros e He. rewrite He in Hshown. by destruct Hshown.
  - intros resp Hresp. rewrite Hresp in Hshown. destruct Hshown as [-> _].
    split; [done|]. split.
    + intros stock. rewrite list_elem_of_filter. tauto.
    + apply sublist_filter.
Qed.

Lemma remove_changes_only_its_symbol_witness :
  (* a tracked symbol, removed *)
  (Engine.remove "KO" sample_store = (inr tt, {[ "AAPL" := Engine.placeholder "AAPL" ]})
   ∧ size sample_store = 2%nat
   ∧ respond (answering (Fulfilled {| data := Other NNull |})) (remove_request "KO")
     = Fulfilled {| data := Other NNull |}
   ∧ map symbol (StockList.stocks (state_after
        (run (answering (Fulfilled {| data := Other NNull |}))
             (StockList.handleRemoveStock (showing sample_portfolio) "KO")
             (showing sample_portfolio))))
     = ["NEW"; "AAPL"; "LOSS"; "ZERO"])
  (* an untracked symbol, refused *)
  ∧ (sample_store !! "ZZZZ" = None
     ∧ Engine.remove "ZZZZ" sample_store = (inl Engine.NotFound, sample_store)
     ∧ respond (answering (Rejected network_error)) (remove_request "ZZZZ")
       = Rejected network_error
     ∧ StockList.stocks (state_after
         (run (answering (Rejected network_error))
              (StockList.handleRemoveStock (showing sample_portfolio) "ZZZZ")
              (showing sample_portfolio)))
       = sample_portfolio).
Proof.
  assert (Hrm : Engine.remove "KO" sample_store
                = (inr tt, {[ "AAPL" := Engine.placeholder "AAPL" ]}))
    by (vm_compute; reflexivity).
  assert (Hnone : sample_store !! "ZZZZ" = None) by (vm_compute; reflexivity).
  destruct (remove_changes_only_its_symbol
              (answering (Fulfilled {| data := Other NNull |}))
              (showing sample_portfolio) sample_store "KO")
    as (_ & _ & Hgone & _ & Hshown).
  destruct (Hgone _ Hrm) as (_ & _ & Hsize).
  destruct (Hshown {| data := Other NNull |} eq_refl) as (Hfilter & _ & _).
  destruct (remove_changes_only_its_symbol
              (answering (Rejected network_error))
              (showing sample_portfolio) sample_store "ZZZZ")
    as (Hrefused & _ & _ & Hkept & _).
  split.
  - split; [exact Hrm|]. split; [rewrite Hsize; vm_compute; reflexivity|].
    split; [reflexivity|]. rewrite Hfilter. vm_compute. reflexivity.
  - split; [exact Hnone|]. split; [exact (Hrefused Hnone)|].
    split; [reflexivity|]. exact (Hkept network_error eq_refl).
Defined.

(** [handleRemoveStock] filters the list of the render that created it.
    A handler created before another removal has been installed therefore
    writes back a list that still holds the record removed meanwhile. *)
Remark handleRemoveStock_filters_its_render :
  let w := answering (Fulfilled {| data := Other NNull |}) in
  let before := showing sample_portfolio in
  let meanwhile := state_after (run w (StockList.handleRemoveStock before "KO") before) in
  map symbol (StockList.stocks meanwhile) = ["NEW"; "AAPL"; "LOSS"; "ZERO"]
  ∧ map symbol (StockList.stocks (state_after
        (run w (StockList.handleRemoveStock before "NEW") meanwhile)))
    = ["KO"; "AAPL"; "LOSS"; "ZERO"].
Proof. split; vm_compute; reflexivity. Qed.

(** C4 fails in the list view when two removals overlap.  The view has
    loaded the sample portfolio; Remove is clicked on KO and, before the
    answer, on NEW; both requests succeed, KO's first.  KO's answer leaves
    the list without KO.  NEW's answer, a successful removal of NEW, leaves
    the list without NEW and with KO in it again: a record other than
    NEW's has changed, and the list shows a record that the server has
    deleted.  No error is shown and none has left a handler. *)
Theorem overlapping_removal_restores_removed_record :
  let loaded :=
    StockListPage.steps StockListPage.mounted [StockListPage.Answer 0 portfolio_answer] in
  let clicked :=
    StockListPage.steps loaded [StockListPage.Remove 1; StockListPage.Remove 2] in
  let ko_removed := StockListPage.step clicked (StockListPage.Answer 0 empty_answer) in
  let new_removed := StockListPage.step ko_removed (StockListPage.Answer 0 empty_answer) in
  let listed c := map symbol (StockList.stocks (StockListPage.state c)) in
  listed loaded = ["AAPL"; "KO"; "NEW"; "ZERO"; "LOSS"]
  ∧ requests (StockListPage.log clicked)
    = [Get "/stocks"; remove_request "KO"; remove_request "NEW"]
  ∧ listed clicked = ["AAPL"; "KO"; "NEW"; "ZERO"; "LOSS"]
  ∧ listed ko_removed = ["AAPL"; "NEW"; "ZERO"; "LOSS"]
  ∧ listed new_removed = ["AAPL"; "KO"; "ZERO"; "LOSS"]
  ∧ listed new_removed ≠ filter (fun sym => sym ≠ "NEW") (listed ko_removed)
  ∧ length (StockListPage.waiting new_removed) = 0%nat
  ∧ StockList.error (StockListPage.state new_removed) = EmptyString
  ∧ StockListPage.escaped new_removed = [].
Proof.
  intros loaded clicked ko_removed new_removed listed.
  repeat split; try (vm_compute; reflexivity).
  vm_compute. discriminate.
Qed.

(** ** Absent metrics and metrics equal to zero *)

Section ZeroVersusAbsent.
Context `{NumberToString}.

Lemma Qeq_zero_num (q : Q) : (q == 0)%Q → Qnum q = 0%Z.
Proof. unfold Qeq. simpl. lia. Qed.

Lemma toFixed_zero (q : Q) (f : nat) : (q == 0)%Q → toFixed q f = toFixed 0 f.
Proof.
  intros Hq. apply Qeq_zero_num in Hq. destruct q as [n d]. simpl in Hq. subst n.
  unfold toFixed.
  assert (Hsmall : Qle_bool (inject_Z (10 ^ 21)) (Qabs (0 # d)) = false).
  { apply not_true_iff_false. rewrite Qle_bool_iff. unfold Qle. simpl. lia. }
  rewrite Hsmall.
  assert (Hfloor : ∀ z : Z,
    Qfloor (Qabs (0 # d) * inject_Z z + (1 # 2))%Q = 0%Z).
  { intros z. unfold Qfloor, Qabs, Qmult, Qplus, inject_Z. simpl.
    apply Z.div_small. lia. }
  rewrite Hfloor.
  replace (Qle_bool 0 (0 # d)) with true by reflexivity.
  reflexivity.
Qed.

Lemma truthy_zero (q : Q) : (q == 0)%Q → truthy (Num q) = false.
Proof. intros Hq. simpl. apply negb_false_iff. by apply Qeq_bool_iff. Qed.

Lemma detail_cell_zero (f : metric_field) (q : Q) (stock : Stock) :
  (q == 0)%Q →
  cell_of (detail_label f) (StockDetailView.rows (set_metric f (Num q) stock))
  = Some (detail_zero f).
Proof.
  intros Hq. destruct f; cbn -[toFixed]; rewrite (toFixed_zero q _ Hq); reflexivity.
Qed.

Lemma detail_cell_absent (f : metric_field) (v : jsnum) (stock : Stock) :
  absent v →
  cell_of (detail_label f) (StockDetailView.rows (set_metric f v stock))
  = Some (detail_absent f).
Proof. intros [-> | ->]; destruct f; reflexivity. Qed.

Lemma detail_zero_not_absent (f : metric_field) : detail_zero f ≠ detail_absent f.
Proof. destruct f; discriminate. Qed.

Lemma sort_key_falsy (stock : Stock) :
  truthy (total_score stock) = false → sort_key stock = 0%Q.
Proof.
  intros Hfalsy. unfold sort_key, or_num, if_truthy.
  destruct (total_score stock); [done..|]. by rewrite Hfalsy.
Qed.

End ZeroVersusAbsent.

Section SortAlike.
Context (zero none : Stock).
Hypothesis same_key : sort_key zero = sort_key none.

Lemma same_place_key (a b : Stock) : same_place zero none a b → sort_key a = sort_key b.
Proof using same_key. intros [->|[-> ->]]; done. Qed.

Lemma insert_alike (x x' : Stock) (l l' : list Stock) :
  same_place zero none x x' →
  Forall2 (same_place zero none) l l' →
  Forall2 (same_place zero none)
    (insert StockList.by_score x l) (insert StockList.by_score x' l').
Proof using same_key.
  intros Hx Hl. induction Hl as [|y y' l l' Hy Hl IH]; simpl.
  - constructor; [exact Hx|constructor].
  - rewrite !by_score_key.
    rewrite (same_place_key _ _ Hx), (same_place_key _ _ Hy).
    destruct (Qle_bool _ 0).
    + constructor; [exact Hx|]. constructor; [exact Hy|exact Hl].
    + constructor; [exact Hy|exact IH].
Qed.

Lemma sort_alike (l l' : list Stock) :
  Forall2 (same_place zero none) l l' →
  Forall2 (same_place zero none)
    (sort StockList.by_score l) (sort StockList.by_score l').
Proof using same_key.
  induction 1 as [|x x' l l' Hx Hl IH]; simpl; [constructor|].
  by apply insert_alike.
Qed.

End SortAlike.

Lemma same_place_refl (zero none : Stock) (l : list Stock) :
  Forall2 (same_place zero none) l l.
Proof. induction l; constructor; [by left|done]. Qed.

Lemma sort_key_set_metric (f : metric_field) (q : Q) (v : jsnum) (stock : Stock) :
  (q == 0)%Q → absent v →
  sort_key (set_metric f (Num q) stock) = sort_key (set_metric f v stock).
Proof.
  intros Hq Hv. destruct f; try reflexivity.
  rewrite !sort_key_falsy; [done| |].
  - by destruct Hv as [-> | ->].
  - by apply truthy_zero.
Qed.

(** C1 (as amended): for every record and every metric field, the detail
    view keeps "absent" and "value zero" apart: an absent metric is shown
    as N/A (as a bare percent sign for ROE) and never as a number, a metric
    equal to 0 is shown as the number 0 in fixed-point form and never as
    N/A, so the two detail renderings differ.  The portfolio ordering does
    not tell them apart: an absent [total_score] has sort key 0, and a list
    holding the record with the metric absent is sorted exactly like the
    list holding it with the metric equal to 0. *)
Theorem detail_separates_zero_order_does_not `{NumberToString}
    (f : metric_field) (q : Q) (v : jsnum) (stock : Stock) (l1 l2 : list Stock) :
  (q == 0)%Q → absent v →
  let zero := set_metric f (Num q) stock in
  let none := set_metric f v stock in
  cell_of (detail_label f) (StockDetailView.rows zero) = Some (detail_zero f)
  ∧ cell_of (detail_label f) (StockDetailView.rows none) = Some (detail_absent f)
  ∧ StockDetailView.rows zero ≠ StockDetailView.rows none
  ∧ sort_key (set_metric f_total_score v stock) = 0%Q
  ∧ sort_key zero = sort_key none
  ∧ Forall2 (same_place zero none)
      (sort StockList.by_score (l1 ++ zero :: l2))
      (sort StockList.by_score (l1 ++ none :: l2)).
Proof.
  intros Hq Hv zero none.
  pose proof (detail_cell_zero f q stock Hq) as Hzero.
  pose proof (detail_cell_absent f v stock Hv) as Hnone.
  pose proof (sort_key_set_metric f q v stock Hq Hv) as Hkey.
  split; [exact Hzero|]. split; [exact Hnone|]. split.
  { intros Heq. fold zero in Hzero. fold none in Hnone.
    rewrite Heq, Hnone in Hzero. injection Hzero as Hzero.
    by apply (detail_zero_not_absent f). }
  split.
  { apply sort_key_falsy. by destruct Hv as [-> | ->]. }
  split; [exact Hkey|].
  apply sort_alike; [exact Hkey|].
  apply Forall2_app; [apply same_place_refl|].
  constructor; [by right|apply same_place_refl].
Qed.

Lemma detail_separates_zero_order_does_not_witness :
  let zero := set_metric f_total_score (Num 0) (sample_stock "ZERO" (Num 1)) in
  let none := set_metric f_total_score Null (sample_stock "ZERO" (Num 1)) in
  (0 == 0)%Q ∧ absent Null
  ∧ cell_of "Total Score" (@StockDetailView.rows integer_to_string zero) = Some "0.00"
  ∧ cell_of "Total Score" (@StockDetailView.rows integer_to_string none) = Some "N/A"
  ∧ @StockDetailView.rows integer_to_string zero
    ≠ @StockDetailView.rows integer_to_string none
  ∧ sort_key none = 0%Q
  ∧ sort_key zero = sort_key none
  ∧ Forall2 (same_place zero none)
      (sort StockList.by_score (sample_portfolio ++ zero :: sample_portfolio))
      (sort StockList.by_score (sample_portfolio ++ none :: sample_portfolio)).
Proof.
  intros zero none. split; [reflexivity|]. split; [by right|].
  apply (@detail_separates_zero_order_does_not integer_to_string f_total_score 0 Null
           (sample_stock "ZERO" (Num 1)) sample_portfolio sample_portfolio).
  - reflexivity.
  - by right.
Defined.

(** C1, as stated, fails: a record whose score and price are 0 and the
    same record with both absent are different records, yet the list view
    renders the same row for both and the comparator orders them alike. *)
Lemma list_view_conflates_zero_and_absent :
  let zero := set_metric f_current_price (Num 0) (sample_stock "ZERO" (Num 0)) in
  let none := set_metric f_current_price Null (sample_stock "ZERO" Null) in
  zero ≠ none
  ∧ get_metric f_total_score zero = Num 0 ∧ get_metric f_total_score none = Null
  ∧ get_metric f_current_price zero = Num 0 ∧ get_metric f_current_price none = Null
  ∧ (∀ (H : NumberToString) (s : StockList.State),
       StockList.render_row s zero = StockList.render_row s none)
  ∧ (∀ other, StockList.by_score zero other = StockList.by_score none other
              ∧ StockList.by_score other zero = StockList.by_score other none)
  ∧ map symbol (sort StockList.by_score
                  [sample_stock "LOSS" (Num (-(2 # 1))); zero; sample_stock "KO" (Num 1)])
    = ["KO"; "ZERO"; "LOSS"]
  ∧ map symbol (sort StockList.by_score
                  [sample_stock "LOSS" (Num (-(2 # 1))); none; sample_stock "KO" (Num 1)])
    = ["KO"; "ZERO"; "LOSS"].
Proof.
  intros zero none. repeat split; try reflexivity.
  discriminate.
Qed.

(** ** The portfolio store *)

Lemma keyed_empty : Engine.keyed ∅.
Proof. intros k r Hk. by rewrite lookup_empty in Hk. Qed.

Lemma keyed_apply_op (store : Engine.Store) (o : store_op) :
  Engine.keyed store → Engine.keyed (apply_op store o).
Proof.
  intros Hkeyed. destruct o as [s|s|r]; simpl.
  - unfold Engine.add. destruct (store !! s) eqn:Hs; simpl; [done|].
    intros k r. rewrite lookup_insert. case_decide as Hk.
    + intros [= <-]. by subst.
    + apply Hkeyed.
  - unfold Engine.remove. destruct (store !! s) eqn:Hs; simpl; [|done].
    intros k r. rewrite lookup_delete. case_decide; [done|]. apply Hkeyed.
  - unfold Engine.upsert. intros k r'. rewrite lookup_insert. case_decide as Hk.
    + intros [= <-]. by subst.
    + apply Hkeyed.
Qed.

Lemma keyed_store_after (history : list store_op) : Engine.keyed (store_after history).
Proof.
  unfold store_after. generalize keyed_empty. generalize (∅ : Engine.Store).
  induction history as [|o history IH]; intros store Hkeyed; simpl; [done|].
  apply IH. by apply keyed_apply_op.
Qed.

Lemma keyed_symbols (store : Engine.Store) :
  Engine.keyed store →
  map Engine.symbol (Engine.list_records store) = Engine.snapshot_of store.
Proof.
  intros Hkeyed. unfold Engine.list_records, Engine.snapshot_of.
  assert (Hall : Forall (fun kr => Engine.symbol kr.2 = kr.1) (map_to_list store)).
  { apply Forall_forall. intros [k r] Hin. simpl.
    apply Hkeyed. by apply elem_of_map_to_list. }
  induction Hall as [|[k r] l Hkr Hl IH]; [done|].
  simpl in Hkr. cbn. by f_equal.
Qed.

Lemma keyed_no_duplicates (store : Engine.Store) :
  Engine.keyed store → NoDup (map Engine.symbol (Engine.list_records store)).
Proof.
  intros Hkeyed. rewrite (keyed_symbols store Hkeyed).
  apply NoDup_fst_map_to_list.
Qed.

(** C3: for every state of the portfolio store and every symbol [s]
    already present, [add(s)] fails with [DuplicateSymbol] and leaves the
    store as it was, size and contents; and whatever the history of adds,
    removes and upserts, the store lists no symbol twice. *)
Theorem add_duplicate_rejected (history : list store_op) (s : string) :
  let store := store_after history in
  is_Some (store !! s) →
  (Engine.add s store).1 = inl Engine.DuplicateSymbol
  ∧ (Engine.add s store).2 = store
  ∧ size (Engine.add s store).2 = size store
  ∧ Engine.list_records (Engine.add s store).2 = Engine.list_records store
  ∧ NoDup (map Engine.symbol (Engine.list_records store))
  ∧ NoDup (map Engine.symbol (Engine.list_records (Engine.add s store).2)).
Proof.
  intros store [r Hr]. unfold Engine.add. rewrite Hr. simpl.
  pose proof (keyed_no_duplicates store (keyed_store_after history)) as Hnodup.
  done.
Qed.

Lemma add_duplicate_rejected_witness :
  let store := store_after [op_add "AAPL"; op_add "KO"; op_add "AAPL"] in
  is_Some (store !! "AAPL")
  ∧ (Engine.add "AAPL" store).1 = inl Engine.DuplicateSymbol
  ∧ (Engine.add "AAPL" store).2 = store
  ∧ size (Engine.add "AAPL" store).2 = size store
  ∧ size store = 2%nat
  ∧ NoDup (map Engine.symbol (Engine.list_records (Engine.add "AAPL" store).2)).
Proof.
  intros store.
  assert (Hin : is_Some (store !! "AAPL")) by (vm_compute; eauto).
  destruct (add_duplicate_rejected [op_add "AAPL"; op_add "KO"; op_add "AAPL"] "AAPL" Hin)
    as (Herr & Hsame & Hsize & _ & _ & Hnodup).
  split; [exact Hin|]. split; [exact Herr|]. split; [exact Hsame|].
  split; [exact Hsize|]. split; [vm_compute; reflexivity|exact Hnodup].
Defined.

(** ** The reanalysis batch *)

Lemma analyze_other (env : Engine.Env) (s k : string) (store : Engine.Store) :
  k ≠ s → (Engine.analyze env s store).2 !! k = store !! k.
Proof.
  intros Hk. unfold Engine.analyze.
  destruct (Engine.fetch _ s) as [e|m]; [done|].
  destruct (store !! s); [|done].
  destruct (Engine.writable env s); [|done].
  simpl. unfold Engine.upsert. simpl. by rewrite lookup_insert_ne.
Qed.

Lemma analyze_failure (env : Engine.Env) (s : string) (store : Engine.Store) :
  is_failure (Engine.analyze env s store).1 → (Engine.analyze env s store).2 = store.
Proof.
  unfold Engine.analyze.
  destruct (Engine.fetch _ s) as [e|m]; [done|].
  destruct (store !! s); [|done].
  destruct (Engine.writable env s); [|done].
  simpl. by intros [e [=]].
Qed.

Lemma analyze_success (env : Engine.Env) (s : string) (store : Engine.Store) (sc : Q) :
  (Engine.analyze env s store).1 = Engine.Success sc →
  ∃ m, Engine.fetch (Engine.provider env) s = inr m
       ∧ sc = Engine.score (Engine.policy env) m (Engine.lookup (Engine.dataset env) s)
       ∧ is_Some (store !! s)
       ∧ (Engine.analyze env s store).2 !! s = Some (analyzed_record env s m sc).
Proof.
  unfold Engine.analyze.
  destruct (Engine.fetch _ s) as [e|m]; [done|].
  destruct (store !! s) eqn:Hs; [|done].
  destruct (Engine.writable env s); [|done].
  simpl. intros [= <-]. exists m. repeat split; [done|].
  unfold Engine.upsert. simpl. apply lookup_insert_eq.
Qed.

(** What a failed fetch, a vanished symbol and a failed write are recorded
    as. *)
Lemma analyze_fetch_error (env : Engine.Env) (s : string) (store : Engine.Store)
    (e : Engine.error) :
  Engine.fetch (Engine.provider env) s = inl e →
  Engine.analyze env s store = (Engine.Failure e, store).
Proof. intros He. unfold Engine.analyze. by rewrite He. Qed.

(** [fetch] fails only as the design says: the symbol is unknown to the
    provider, or every attempt of the retry budget was a transient
    failure. *)
Lemma fetch_from_error (provider : string → nat → Engine.reply) (s : string)
    (attempt budget : nat) (e : Engine.error) :
  Engine.fetch_from provider s attempt budget = inl e →
  e = Engine.SymbolNotFound ∨ e = Engine.TransientFetchError.
Proof.
  revert attempt. induction budget as [|budget IH]; intros attempt; simpl.
  - intros [= <-]. by right.
  - destruct (provider s attempt); [done| |apply IH].
    intros [= <-]. by left.
Qed.

Lemma process_cons (env : Engine.Env) (s : string) (rest : list string)
    (store : Engine.Store) :
  Engine.process env (s :: rest) store
  = ((s, (Engine.analyze env s store).1)
       :: (Engine.process env rest (Engine.analyze env s store).2).1,
     (Engine.process env rest (Engine.analyze env s store).2).2).
Proof.
  simpl. destruct (Engine.analyze env s store) as [o store1]. simpl.
  by destruct (Engine.process env rest store1) as [results store2].
Qed.

Lemma process_symbols (env : Engine.Env) (snapshot : list string) (store : Engine.Store) :
  (Engine.process env snapshot store).1.*1 = snapshot.
Proof.
  revert store. induction snapshot as [|s rest IH]; intros store; [done|].
  rewrite process_cons. cbn. by rewrite IH.
Qed.

Lemma process_app (env : Engine.Env) (l1 l2 : list string) (store : Engine.Store) :
  Engine.process env (l1 ++ l2) store
  = (((Engine.process env l1 store).1
        ++ (Engine.process env l2 (Engine.process env l1 store).2).1)%list,
     (Engine.process env l2 (Engine.process env l1 store).2).2).
Proof.
  revert store. induction l1 as [|s l1 IH]; intros store.
  - simpl. by destruct (Engine.process env l2 store).
  - rewrite <- app_comm_cons, !process_cons, IH. done.
Qed.

(** The outcome of one pass, read off the symbol's own steps. *)
Lemma analyze_outcome (env : Engine.Env) (s : string) (store : Engine.Store) :
  (Engine.analyze env s store).1
  = match Engine.fetch (Engine.provider env) s with
    | inl e => Engine.Failure e
    | inr m =>
        match store !! s with
        | None => Engine.Failure Engine.NotFound
        | Some _ =>
            if Engine.writable env s
            then Engine.Success (Engine.score (Engine.policy env) m
                                   (Engine.lookup (Engine.dataset env) s))
            else Engine.Failure Engine.PersistenceError
        end
    end.
Proof.
  unfold Engine.analyze. destruct (Engine.fetch _ s) as [e|m]; [done|].
  destruct (store !! s); [|done]. by destruct (Engine.writable env s).
Qed.

Lemma analyze_written (env : Engine.Env) (s : string) (store : Engine.Store)
    (m : Engine.Metrics) :
  Engine.fetch (Engine.provider env) s = inr m →
  is_Some (store !! s) →
  Engine.writable env s = true →
  let sc := Engine.score (Engine.policy env) m (Engine.lookup (Engine.dataset env) s) in
  Engine.analyze env s store
  = (Engine.Success sc, <[s := analyzed_record env s m sc]> store).
Proof.
  intros Hm [r Hr] Hw sc. unfold Engine.analyze. by rewrite Hm, Hr, Hw.
Qed.

(** No pass removes a symbol from the store. *)
Lemma analyze_keeps_symbols (env : Engine.Env) (s k : string) (store : Engine.Store) :
  is_Some (store !! k) → is_Some ((Engine.analyze env s store).2 !! k).
Proof.
  intros Hk. destruct (decide (k = s)) as [->|Hne]; [|by rewrite analyze_other].
  unfold Engine.analyze. destruct (Engine.fetch _ s) as [e|m]; [done|].
  destruct (store !! s) as [r|] eqn:Hs; [|by destruct Hk].
  destruct (Engine.writable env s); [|simpl; by rewrite Hs].
  simpl. unfold Engine.upsert. simpl. rewrite lookup_insert_eq. by eexists.
Qed.

(** In a batch over symbols that are all tracked, an entry's outcome is
    decided by the fetch and the write of its own symbol. *)
Lemma process_tracked_outcome (env : Engine.Env) (snapshot : list string)
    (store : Engine.Store) (s : string) (o : Engine.Outcome) :
  (∀ k, k ∈ snapshot → is_Some (store !! k)) →
  (s, o) ∈ (Engine.process env snapshot store).1 →
  match Engine.fetch (Engine.provider env) s with
  | inl e => o = Engine.Failure e
             ∧ (e = Engine.SymbolNotFound ∨ e = Engine.TransientFetchError)
  | inr m =>
      o = if Engine.writable env s
          then Engine.Success (Engine.score (Engine.policy env) m
                                 (Engine.lookup (Engine.dataset env) s))
          else Engine.Failure Engine.PersistenceError
  end.
Proof.
  revert store. induction snapshot as [|x rest IH]; intros store Htracked.
  - simpl. intros Hin. by apply elem_of_nil in Hin.
  - rewrite process_cons. cbn [fst]. intros Hin.
    apply elem_of_cons in Hin as [[= -> ->]|Hin].
    + rewrite analyze_outcome.
      destruct (Htracked x) as [r Hr]; [apply list_elem_of_here|].
      destruct (Engine.fetch _ x) as [e|m] eqn:Hfetch.
      * split; [done|]. by apply (fetch_from_error _ _ _ _ _ Hfetch).
      * by rewrite Hr.
    + apply (IH (Engine.analyze env x store).2); [|done].
      intros k Hk. apply analyze_keeps_symbols, Htracked. by apply list_elem_of_further.
Qed.

(** C5: for every portfolio snapshot the batch returns a result with
    exactly one outcome per snapshot symbol, in snapshot order.  The outcome
    of a symbol is decided by its own pass alone: a failed fetch is recorded
    as [Failure] with the fetch's reason ([SymbolNotFound], or
    [TransientFetchError] once the retries are used up), a failed write as
    [Failure PersistenceError], and otherwise the entry is [Success] with
    the score of the fetched metrics and the looked-up ratings.  A symbol
    that is no longer in the store at its turn is recorded as
    [Failure NotFound].  A failed pass, at whatever step, leaves the store
    untouched and the symbols after it are processed all the same; a
    successful pass hands the written store on: the batch never stops
    early. *)
Theorem reanalyze_all_one_outcome_each (env : Engine.Env) (store : Engine.Store) :
  let result := (Engine.reanalyze_all env store).1 in
  result.*1 = Engine.snapshot_of store
  ∧ length result = size store
  ∧ NoDup result.*1
  ∧ (∀ s, is_Some (store !! s) ↔ ∃ o, (s, o) ∈ result)
  ∧ (∀ s o, (s, o) ∈ result →
       match Engine.fetch (Engine.provider env) s with
       | inl e => o = Engine.Failure e
                  ∧ (e = Engine.SymbolNotFound ∨ e = Engine.TransientFetchError)
       | inr m =>
           o = if Engine.writable env s
               then Engine.Success (Engine.score (Engine.policy env) m
                                      (Engine.lookup (Engine.dataset env) s))
               else Engine.Failure Engine.PersistenceError
       end)
  ∧ (∀ snapshot st, (Engine.process env snapshot st).1.*1 = snapshot)
  ∧ (∀ s rest st,
       is_failure (Engine.analyze env s st).1 →
       Engine.process env (s :: rest) st
       = ((s, (Engine.analyze env s st).1) :: (Engine.process env rest st).1,
          (Engine.process env rest st).2))
  ∧ (∀ s rest st reason,
       (Engine.fetch (Engine.provider env) s = inl reason
        ∨ ∃ m, Engine.fetch (Engine.provider env) s = inr m
               ∧ ((st !! s = None ∧ reason = Engine.NotFound)
                  ∨ (is_Some (st !! s) ∧ Engine.writable env s = false
                     ∧ reason = Engine.PersistenceError))) →
       Engine.process env (s :: rest) st
       = ((s, Engine.Failure reason) :: (Engine.process env rest st).1,
          (Engine.process env rest st).2))
  ∧ (∀ s rest st m,
       Engine.fetch (Engine.provider env) s = inr m →
       is_Some (st !! s) →
       Engine.writable env s = true →
       let sc := Engine.score (Engine.policy env) m
                   (Engine.lookup (Engine.dataset env) s) in
       let written := <[s := analyzed_record env s m sc]> st in
       Engine.process env (s :: rest) st
       = ((s, Engine.Success sc) :: (Engine.process env rest written).1,
          (Engine.process env rest written).2))
  ∧ (∀ before s after st,
       (Engine.process env (before ++ s :: after) st).1
       = ((Engine.process env before st).1
          ++ (s, (Engine.analyze env s (Engine.process env before st).2).1)
          :: (Engine.process env after
                (Engine.analyze env s (Engine.process env before st).2).2).1)%list).
Proof.
  intros result. subst result. unfold Engine.reanalyze_all.
  pose proof (process_symbols env (Engine.snapshot_of store) store) as Hsym.
  split; [exact Hsym|]. split.
  { rewrite <- (length_fmap fst), Hsym. unfold Engine.snapshot_of.
    rewrite length_fmap. apply length_map_to_list. }
  split.
  { rewrite Hsym. apply NoDup_fst_map_to_list. }
  split.
  { intros s. split.
    - intros [r Hr].
      assert (Hin : s ∈ (Engine.process env (Engine.snapshot_of store) store).1.*1).
      { rewrite Hsym. unfold Engine.snapshot_of.
        apply list_elem_of_fmap. exists (s, r). split; [done|].
        by apply elem_of_map_to_list. }
      apply list_elem_of_fmap in Hin as ([s' o] & -> & Hin). by exists o.
    - intros [o Ho].
      assert (Hin : s ∈ Engine.snapshot_of store).
      { rewrite <- Hsym. apply list_elem_of_fmap. by exists (s, o). }
      unfold Engine.snapshot_of in Hin.
      apply list_elem_of_fmap in Hin as ([s' r] & -> & Hin).
      exists r. by apply elem_of_map_to_list. }
  split.
  { intros s o. apply process_tracked_outcome.
    intros k Hk. unfold Engine.snapshot_of in Hk.
    apply list_elem_of_fmap in Hk as ([k' r] & -> & Hk).
    exists r. by apply elem_of_map_to_list. }
  split; [apply process_symbols|]. split.
  { intros s rest st Hfail. rewrite process_cons.
    by rewrite (analyze_failure env s st Hfail). }
  split.
  { intros s rest st reason Hstep.
    assert (Hout : (Engine.analyze env s st).1 = Engine.Failure reason).
    { rewrite analyze_outcome.
      destruct Hstep as [->|(m & -> & [[-> ->]|([r ->] & -> & ->)])]; done. }
    rewrite process_cons, Hout.
    rewrite (analyze_failure env s st); [done|]. rewrite Hout. by exists reason. }
  split.
  { intros s rest st m Hm Hs Hw. cbv zeta. rewrite process_cons.
    pose proof (analyze_written env s st m Hm Hs Hw) as Hpass. cbv zeta in Hpass.
    by rewrite Hpass. }
  intros before s after st. rewrite process_app. cbn [fst].
  by rewrite process_cons.
Qed.

Lemma outcome_cases (o : Engine.Outcome) : is_failure o ∨ ∃ sc, o = Engine.Success sc.
Proof. destruct o as [sc|e]; [right; by exists sc | left; by exists e]. Qed.

Lemma process_unchanged_or_success (env : Engine.Env) (snapshot : list string)
    (store : Engine.Store) (x : string) :
  (Engine.process env snapshot store).2 !! x = store !! x
  ∨ ∃ sc, (x, Engine.Success sc) ∈ (Engine.process env snapshot store).1.
Proof.
  revert store. induction snapshot as [|s rest IH]; intros store; [by left|].
  rewrite process_cons. cbn [fst snd].
  destruct (IH (Engine.analyze env s store).2) as [Hsame|[sc Hsc]].
  - destruct (decide (x = s)) as [->|Hne].
    + destruct (outcome_cases (Engine.analyze env s store).1) as [Hfail|[sc Hsc]].
      * left. by rewrite Hsame, (analyze_failure env s store Hfail).
      * right. exists sc. rewrite Hsc. apply list_elem_of_here.
    + left. rewrite Hsame. by apply analyze_other.
  - right. exists sc. by apply list_elem_of_further.
Qed.

Lemma process_frame (env : Engine.Env) (snapshot : list string)
    (store : Engine.Store) (x : string) :
  x ∉ snapshot → (Engine.process env snapshot store).2 !! x = store !! x.
Proof.
  intros Hx. destruct (process_unchanged_or_success env snapshot store x)
    as [Hsame|[sc Hsc]]; [done|].
  exfalso. apply Hx. rewrite <- (process_symbols env snapshot store).
  apply list_elem_of_fmap. by exists (x, Engine.Success sc).
Qed.

Lemma process_success (env : Engine.Env) (snapshot : list string)
    (store : Engine.Store) (x : string) (sc : Q) :
  NoDup snapshot →
  (x, Engine.Success sc) ∈ (Engine.process env snapshot store).1 →
  ∃ m, Engine.fetch (Engine.provider env) x = inr m
       ∧ (Engine.process env snapshot store).2 !! x = Some (analyzed_record env x m sc).
Proof.
  intros Hnodup. revert store.
  induction Hnodup as [|s rest Hs Hrest IH]; intros store.
  - simpl. intros Hin. by apply elem_of_nil in Hin.
  - rewrite process_cons. cbn [fst snd]. intros Hin.
    apply elem_of_cons in Hin as [[= -> Hsc]|Hin].
    + symmetry in Hsc.
      destruct (analyze_success env s store sc Hsc) as (m & Hm & _ & _ & Hrec).
      exists m. split; [done|]. by rewrite process_frame.
    + by apply IH.
Qed.

(** C6: a symbol whose passes all fail (fetch error, [SymbolNotFound],
    exhausted retries, or a failed write) keeps its persisted record, its
    [total_score], all metric fields and its [last_analyzed_at], exactly as
    before the batch; a record that differs after the batch belongs to a
    symbol whose pass succeeded, and a successful pass stores the fetched
    metrics, the new score and the time of the pass. *)
Theorem failed_pass_keeps_record (env : Engine.Env) (snapshot : list string)
    (store : Engine.Store) (x : string) :
  let results := (Engine.process env snapshot store).1 in
  let store' := (Engine.process env snapshot store).2 in
  ((∀ o, (x, o) ∈ results → is_failure o) → store' !! x = store !! x)
  ∧ (store' !! x ≠ store !! x → ∃ sc, (x, Engine.Success sc) ∈ results)
  ∧ (NoDup snapshot → ∀ sc, (x, Engine.Success sc) ∈ results →
       ∃ r, store' !! x = Some r
            ∧ Engine.symbol r = x
            ∧ Engine.fetch (Engine.provider env) x = inr (Engine.metrics r)
            ∧ Engine.total_score r = Some sc
            ∧ Engine.last_analyzed_at r = Some (Engine.now env))
  ∧ (∀ e, Engine.fetch (Engine.provider env) x = inl e →
       (e = Engine.SymbolNotFound ∨ e = Engine.TransientFetchError)
       ∧ store' !! x = store !! x
       ∧ ∀ o, (x, o) ∈ results → o = Engine.Failure e).
Proof.
  intros results store'.
  destruct (process_unchanged_or_success env snapshot store x) as [Hsame|[sc Hsc]].
  - split; [done|]. split; [done|]. split.
    + intros Hnodup sc Hsc.
      destruct (process_success env snapshot store x sc Hnodup Hsc) as (m & Hm & Hrec).
      by exists (analyzed_record env x m sc).
    + intros e He. split; [by apply (fetch_from_error _ _ _ _ _ He)|]. split; [done|].
      clear Hsame. subst results store'. revert store.
      induction snapshot as [|s rest IH]; intros store o.
      * simpl. intros Hin. by apply elem_of_nil in Hin.
      * rewrite process_cons. cbn [fst]. intros Hin.
        apply elem_of_cons in Hin as [[= <- ->]|Hin]; [|by eapply IH].
        by rewrite (analyze_fetch_error env x store e He).
  - split.
    { intros Hall. destruct (Hall _ Hsc) as [e [=]]. }
    split; [by exists sc|]. split.
    + intros Hnodup sc' Hsc'.
      destruct (process_success env snapshot store x sc' Hnodup Hsc') as (m & Hm & Hrec).
      by exists (analyzed_record env x m sc').
    + intros e He. exfalso.
      clear results store'. revert store Hsc.
      induction snapshot as [|s rest IH]; intros store.
      * simpl. intros Hin. by apply elem_of_nil in Hin.
      * rewrite process_cons. cbn [fst]. intros Hin.
        apply elem_of_cons in Hin as [[= <- Hin]|Hin]; [|by eapply IH].
        by rewrite (analyze_fetch_error env x store e He) in Hin.
Qed.

(** ** The scoring engine *)

Section ScoreFacts.
Import Engine.
Context (p : Policy).

Lemma numerator_over_present (cs : list component) (m : Metrics) (r : RatingCounts) :
  (numerator_over p cs m r == numerator_over p (filter (present m r) cs) m r)%Q.
Proof.
  unfold numerator_over. induction cs as [|c cs IH]; [reflexivity|].
  rewrite filter_cons. destruct (decide (present m r c)) as [Hc|Hc].
  - simpl. by rewrite IH.
  - simpl. rewrite IH. unfold present in Hc.
    destruct (signal m r c) as [x|]; [exfalso; eauto|]. apply Qplus_0_l.
Qed.

Lemma denominator_over_present (cs : list component) (m : Metrics) (r : RatingCounts) :
  (denominator_over p cs m r == denominator_over p (filter (present m r) cs) m r)%Q.
Proof.
  unfold denominator_over. induction cs as [|c cs IH]; [reflexivity|].
  rewrite filter_cons. destruct (decide (present m r c)) as [Hc|Hc].
  - simpl. by rewrite IH.
  - simpl. rewrite IH. unfold present in Hc.
    destruct (signal m r c) as [x|]; [exfalso; eauto|]. apply Qplus_0_l.
Qed.

Lemma divide_proper (a a' b b' : Q) (u : Q) :
  (a == a')%Q → (b == b')%Q →
  (default u (divide a b) == default u (divide a' b'))%Q.
Proof.
  intros Ha Hb. unfold divide.
  destruct (Qeq_bool b 0) eqn:Hz; destruct (Qeq_bool b' 0) eqn:Hz'; simpl.
  - reflexivity.
  - apply Qeq_bool_iff in Hz. apply Qeq_bool_neq in Hz'.
    exfalso. apply Hz'. by rewrite <- Hb.
  - apply Qeq_bool_iff in Hz'. apply Qeq_bool_neq in Hz.
    exfalso. apply Hz. by rewrite Hb.
  - by rewrite Ha, Hb.
Qed.

Lemma score_over_present (cs : list component) (m : Metrics) (r : RatingCounts) :
  (score_over p cs m r == score_over p (filter (present m r) cs) m r)%Q.
Proof.
  unfold score_over.
  apply divide_proper; [apply numerator_over_present|apply denominator_over_present].
Qed.

End ScoreFacts.

(** C2: for every subset of metrics that is present, the empty one
    included, [score] is a function of its inputs (equal inputs, equal
    outputs) and yields a rational number without ever dividing by zero:
    the quotient of numerator and denominator when the denominator is not
    zero, the policy's fixed value otherwise.  An absent metric adds zero to
    the numerator and zero to the denominator, so the score is the weighted
    average over the present signals alone; a metric that is present with
    value 0 adds its weight to the denominator and its weighted sub-score
    to the numerator. *)
Theorem score_total_excluding_absent
    (p : Engine.Policy) (m : Engine.Metrics) (r : Engine.RatingCounts) :
  let num := Engine.numerator_over p Engine.components m r in
  let den := Engine.denominator_over p Engine.components m r in
  let shown := filter (present m r) Engine.components in
  (∀ m' r', m = m' → r = r' → Engine.score p m r = Engine.score p m' r')
  ∧ ((den == 0)%Q → Engine.score p m r = Engine.unscored p)
  ∧ (¬ (den == 0)%Q → Engine.divide num den = Some (num / den)%Q
                      ∧ Engine.score p m r = (num / den)%Q)
  ∧ (∀ c, Engine.signal m r c = None →
       Engine.numerator_term p (Engine.signal m r c) c = 0%Q
       ∧ Engine.denominator_term p (Engine.signal m r c) c = 0%Q)
  ∧ (∀ c x, Engine.signal m r c = Some x →
       Engine.numerator_term p (Engine.signal m r c) c
       = (Engine.weight p c * Engine.sub_score p c x)%Q
       ∧ Engine.denominator_term p (Engine.signal m r c) c = Engine.weight p c)
  ∧ (num == Engine.numerator_over p shown m r)%Q
  ∧ (den == Engine.denominator_over p shown m r)%Q
  ∧ (Engine.score p m r == Engine.score_over p shown m r)%Q
  ∧ (shown = [] → Engine.score p m r = Engine.unscored p).
Proof.
  intros num den shown.
  split; [by intros m' r' <- <-|]. split.
  { intros Hden. unfold Engine.score, Engine.score_over, Engine.divide.
    fold den. apply Qeq_bool_iff in Hden. by rewrite Hden. }
  split.
  { intros Hden. unfold Engine.score, Engine.score_over, Engine.divide.
    fold den num. destruct (Qeq_bool den 0) eqn:Hz; [|done].
    by apply Qeq_bool_iff in Hz. }
  split; [by intros c ->|]. split; [by intros c x ->|].
  split; [apply numerator_over_present|].
  split; [apply denominator_over_present|].
  split; [apply score_over_present|].
  intros Hnone.
  assert (Hden : (den == 0)%Q).
  { unfold den. rewrite (denominator_over_present p). fold shown. by rewrite Hnone. }
  unfold Engine.score, Engine.score_over, Engine.divide. fold den.
  apply Qeq_bool_iff in Hden. by rewrite Hden.
Qed.

(** ** The example, run *)

Lemma score_total_excluding_absent_witness :
  (* nothing present *)
  (filter (present Engine.no_metrics Engine.no_ratings) Engine.components = []
   ∧ (Engine.denominator_over sample_policy Engine.components
        Engine.no_metrics Engine.no_ratings == 0)%Q
   ∧ Engine.score sample_policy Engine.no_metrics Engine.no_ratings = 0%Q)
  (* P/E unknown: the score is the ROE sub-score alone *)
  ∧ (Engine.signal aapl_quote_no_pe Engine.no_ratings Engine.PE = None
     ∧ Engine.denominator_term sample_policy
         (Engine.signal aapl_quote_no_pe Engine.no_ratings Engine.PE) Engine.PE = 0%Q
     ∧ ¬ (Engine.denominator_over sample_policy Engine.components
            aapl_quote_no_pe Engine.no_ratings == 0)%Q
     ∧ (Engine.score sample_policy aapl_quote_no_pe Engine.no_ratings == 8)%Q)
  (* P/E equal to 0: it takes part with its weight *)
  ∧ (Engine.signal aapl_quote Engine.no_ratings Engine.PE = Some 0%Q
     ∧ Engine.denominator_term sample_policy
         (Engine.signal aapl_quote Engine.no_ratings Engine.PE) Engine.PE = 3%Q
     ∧ (Engine.score sample_policy aapl_quote Engine.no_ratings == 4)%Q).
Proof.
  destruct (score_total_excluding_absent sample_policy Engine.no_metrics Engine.no_ratings)
    as (_ & _ & _ & _ & _ & _ & Hden0 & _ & Hempty).
  destruct (score_total_excluding_absent sample_policy aapl_quote_no_pe Engine.no_ratings)
    as (_ & _ & Hquot & Habsent & _ & _ & _ & _ & _).
  destruct (score_total_excluding_absent sample_policy aapl_quote Engine.no_ratings)
    as (_ & _ & _ & _ & Hterm & _ & _ & _ & _).
  assert (Hnone : filter (present Engine.no_metrics Engine.no_ratings) Engine.components = [])
    by reflexivity.
  assert (Hpos : ¬ (Engine.denominator_over sample_policy Engine.components
                      aapl_quote_no_pe Engine.no_ratings == 0)%Q)
    by (vm_compute; discriminate).
  split; [|split].
  - split; [exact Hnone|]. split; [rewrite Hden0; reflexivity|exact (Hempty Hnone)].
  - split; [reflexivity|].
    split; [exact (proj2 (Habsent Engine.PE eq_refl))|]. split; [exact Hpos|].
    destruct (Hquot Hpos) as [_ ->]. vm_compute. reflexivity.
  - split; [reflexivity|]. split; [|vm_compute; reflexivity].
    exact (proj2 (Hterm Engine.PE 0%Q eq_refl)).
Defined.

Lemma reanalyze_all_one_outcome_each_witness :
  let sc := Engine.score sample_policy aapl_quote Engine.no_ratings in
  (Engine.reanalyze_all sample_env tracked).1
  = [ ("AAPL", Engine.Success sc);
      ("FLKY", Engine.Failure Engine.TransientFetchError);
      ("ZZZZ", Engine.Failure Engine.SymbolNotFound) ]
  ∧ (Engine.reanalyze_all sample_env tracked).1.*1 = Engine.snapshot_of tracked
  ∧ length (Engine.reanalyze_all sample_env tracked).1 = 3%nat
  (* the unknown symbol is recorded with its reason and AAPL is processed
     after it, from the store as it was *)
  ∧ Engine.fetch (Engine.provider sample_env) "ZZZZ" = inl Engine.SymbolNotFound
  ∧ Engine.process sample_env ["ZZZZ"; "AAPL"] tracked
    = (("ZZZZ", Engine.Failure Engine.SymbolNotFound)
         :: (Engine.process sample_env ["AAPL"] tracked).1,
       (Engine.process sample_env ["AAPL"] tracked).2)
  (* AAPL is quoted, tracked and writable: its entry carries the new score
     and FLKY is processed after it, from the written store *)
  ∧ Engine.fetch (Engine.provider sample_env) "AAPL" = inr aapl_quote
  ∧ is_Some (tracked !! "AAPL")
  ∧ Engine.writable sample_env "AAPL" = true
  ∧ Engine.process sample_env ["AAPL"; "FLKY"] tracked
    = (("AAPL", Engine.Success sc)
         :: (Engine.process sample_env ["FLKY"]
               (<["AAPL" := analyzed_record sample_env "AAPL" aapl_quote sc]> tracked)).1,
       (Engine.process sample_env ["FLKY"]
          (<["AAPL" := analyzed_record sample_env "AAPL" aapl_quote sc]> tracked)).2).
Proof.
  intros sc.
  destruct (reanalyze_all_one_outcome_each sample_env tracked)
    as (Hsym & Hlen & _ & _ & _ & _ & _ & Hfailed & Hwritten & _).
  assert (Hzzzz : Engine.fetch (Engine.provider sample_env) "ZZZZ"
                  = inl Engine.SymbolNotFound) by reflexivity.
  assert (Haapl : Engine.fetch (Engine.provider sample_env) "AAPL" = inr aapl_quote)
    by reflexivity.
  assert (Htracked : is_Some (tracked !! "AAPL")) by (vm_compute; by eexists).
  assert (Hw : Engine.writable sample_env "AAPL" = true) by reflexivity.
  split; [vm_compute; reflexivity|]. split; [exact Hsym|].
  split; [rewrite Hlen; vm_compute; reflexivity|]. split; [exact Hzzzz|].
  split; [exact (Hfailed "ZZZZ" ["AAPL"] tracked _ (or_introl Hzzzz))|].
  split; [exact Haapl|]. split; [exact Htracked|]. split; [exact Hw|].
  exact (Hwritten "AAPL" ["FLKY"] tracked aapl_quote Haapl Htracked Hw).
Defined.

Lemma failed_pass_keeps_record_witness :
  let snapshot := Engine.snapshot_of tracked in
  let results := (Engine.process sample_env snapshot tracked).1 in
  let store' := (Engine.process sample_env snapshot tracked).2 in
  let sc := Engine.score sample_policy aapl_quote Engine.no_ratings in
  (* ZZZZ is unknown to the provider: its placeholder record stays *)
  ((∀ o, ("ZZZZ", o) ∈ results → is_failure o)
   ∧ store' !! "ZZZZ" = tracked !! "ZZZZ"
   ∧ tracked !! "ZZZZ" = Some (Engine.placeholder "ZZZZ"))
  (* FLKY uses up its retries: its placeholder record stays *)
  ∧ (Engine.fetch (Engine.provider sample_env) "FLKY" = inl Engine.TransientFetchError
     ∧ store' !! "FLKY" = tracked !! "FLKY")
  (* AAPL is analyzed: its record carries the new score and the time *)
  ∧ (NoDup snapshot
     ∧ ("AAPL", Engine.Success sc) ∈ results
     ∧ store' !! "AAPL" ≠ tracked !! "AAPL"
     ∧ (∃ sc', ("AAPL", Engine.Success sc') ∈ results)
     ∧ ∃ r, store' !! "AAPL" = Some r
            ∧ Engine.symbol r = "AAPL"
            ∧ Engine.fetch (Engine.provider sample_env) "AAPL" = inr (Engine.metrics r)
            ∧ Engine.total_score r = Some sc
            ∧ Engine.last_analyzed_at r = Some (Engine.now sample_env)).
Proof.
  intros snapshot results store' sc.
  assert (Hresults : results
    = [ ("AAPL", Engine.Success sc);
        ("FLKY", Engine.Failure Engine.TransientFetchError);
        ("ZZZZ", Engine.Failure Engine.SymbolNotFound) ]) by (vm_compute; reflexivity).
  assert (Hfails : ∀ o, ("ZZZZ", o) ∈ results → is_failure o).
  { intros o Hin. clearbody results. subst results.
    apply elem_of_cons in Hin as [Hin|Hin]; [discriminate Hin|].
    apply elem_of_cons in Hin as [Hin|Hin]; [discriminate Hin|].
    apply elem_of_cons in Hin as [Hin|Hin]; [injection Hin as ->; by eexists|].
    by apply elem_of_nil in Hin. }
  assert (Hnodup : NoDup snapshot) by apply NoDup_fst_map_to_list.
  assert (Hin : ("AAPL", Engine.Success sc) ∈ results).
  { clearbody results. subst results. apply list_elem_of_here. }
  assert (Hflky : Engine.fetch (Engine.provider sample_env) "FLKY"
                  = inl Engine.TransientFetchError) by reflexivity.
  destruct (failed_pass_keeps_record sample_env snapshot tracked "ZZZZ")
    as (Hkept & _).
  destruct (failed_pass_keeps_record sample_env snapshot tracked "FLKY")
    as (_ & _ & _ & Hexhausted).
  destruct (failed_pass_keeps_record sample_env snapshot tracked "AAPL")
    as (_ & Hchanged & Hnew & _).
  split; [|split].
  - split; [exact Hfails|]. split; [exact (Hkept Hfails)|vm_compute; reflexivity].
  - split; [exact Hflky|]. exact (proj1 (proj2 (Hexhausted _ Hflky))).
  - assert (Hdiffers : store' !! "AAPL" ≠ tracked !! "AAPL").
    { destruct (Hnew Hnodup sc Hin) as (r & Hr & _ & _ & Hsc & _).
      assert (Hold : tracked !! "AAPL" = Some (Engine.placeholder "AAPL"))
        by (vm_compute; reflexivity).
      intros Heq.
      pose proof (eq_trans (eq_sym Hr) (eq_trans Heq Hold)) as Hsame.
      injection Hsame as ->. discriminate Hsc. }
    split; [exact Hnodup|]. split; [exact Hin|]. split; [exact Hdiffers|].
    split; [exact (Hchanged Hdiffers)|exact (Hnew Hnodup sc Hin)].
Defined.

(** * Further properties of the front end *)

(** ** The service layer *)

(** X1: each of the four service calls sends exactly one request, resolves
    with the response's [data] and, when the request is rejected, logs one
    console error and rejects with that same error; none of them touches
    the state of the component that awaits it. *)
Theorem stockService_passes_through {S} (w : world) (sym : string) :
  passes_through (S := S) w stockService.getAllStocks
    (Get "/stocks") "Error fetching stocks:"
  ∧ passes_through (S := S) w (stockService.addStock sym)
      (Post "/stocks" [("symbol", sym)]) "Error adding stock:"
  ∧ passes_through (S := S) w stockService.analyzeStocks
      (Post "/analyze-stocks" []) "Error analyzing stocks:"
  ∧ passes_through (S := S) w (stockService.removeStock sym)
      (Delete ("/remove-stock/" ++ sym)) "Error removing stock:".
Proof.
  repeat split; unfold settled_as, state_after, trace_of; cbn;
    destruct (respond w _) as [resp|e]; reflexivity.
Qed.

(** ** StockList: the order of the table *)

#[local] Instance score_desc_transitive : Transitive score_desc.
Proof.
  intros a b c Hab Hbc. unfold score_desc, descending in *.
  by apply (Qle_trans _ (sort_key b)).
Qed.

Lemma sort_by_score_strongly_sorted (l : list Stock) :
  StronglySorted score_desc (sort StockList.by_score l).
Proof.
  apply Sorted_StronglySorted; [apply _|].
  apply (sort_sorted StockList.by_score sort_key by_score_key).
Qed.

Lemma StronglySorted_lookup {A} (R : A → A → Prop) (l : list A) (i j : nat) (a b : A) :
  StronglySorted R l → (i < j)%nat → l !! i = Some a → l !! j = Some b → R a b.
Proof.
  intros Hs. revert i j. induction Hs as [|x l Hl IH Hx]; intros i j Hij Ha Hb; [done|].
  destruct j as [|j]; [lia|]. simpl in Hb.
  destruct i as [|i].
  - simpl in Ha. injection Ha as ->.
    rewrite Forall_forall in Hx. apply Hx.
    by apply list_elem_of_lookup_2 with j.
  - simpl in Ha. apply (IH i j); [lia|done..].
Qed.

Lemma StronglySorted_filter {A} (R : A → A → Prop) (P : A → Prop)
    `{!∀ x, Decision (P x)} (l : list A) :
  StronglySorted R l → StronglySorted R (filter P l).
Proof.
  induction 1 as [|x l Hl IH Hx]; [constructor|].
  rewrite filter_cons. destruct (decide (P x)); [|done].
  constructor; [done|].
  rewrite Forall_forall in Hx |- *. intros y Hy. apply Hx.
  apply list_elem_of_filter in Hy. apply Hy.
Qed.

Lemma insert_with_key (k : Q) (x : Stock) (l : list Stock) :
  with_key k (insert StockList.by_score x l) = with_key k (x :: l).
Proof.
  unfold with_key. induction l as [|y l IH]; [done|].
  cbn [insert]. destruct (Qle_bool (StockList.by_score x y) 0) eqn:Hcmp; [done|].
  cbn [List.filter] in *. rewrite IH.
  destruct (Qeq_bool (sort_key x) k) eqn:Hx; [|done].
  destruct (Qeq_bool (sort_key y) k) eqn:Hy; [|done].
  exfalso. apply Qeq_bool_iff in Hx, Hy.
  apply not_true_iff_false in Hcmp. apply Hcmp.
  rewrite Qle_bool_iff, by_score_key. lra.
Qed.

Lemma sort_with_key (k : Q) (l : list Stock) :
  with_key k (sort StockList.by_score l) = with_key k l.
Proof.
  induction l as [|x l IH]; [done|].
  cbn [sort foldr]. rewrite insert_with_key.
  unfold with_key in *. cbn [List.filter]. fold (sort StockList.by_score l).
  by rewrite IH.
Qed.

Lemma with_key_all (k : Q) (l : list Stock) :
  Forall (fun stock => (sort_key stock == k)%Q) l → with_key k l = l.
Proof.
  unfold with_key. induction 1 as [|x l Hx Hl IH]; [done|].
  cbn [List.filter]. apply Qeq_bool_iff in Hx. by rewrite Hx, IH.
Qed.

(** X2: [fetchStocks] keeps the server's order among records of equal
    rank: for every key, the records with that [total_score || 0] appear in
    the table in the order of the response.  In particular a response whose
    records all have the same key (say, none analyzed yet) is shown as it
    came. *)
Theorem fetchStocks_stable (w : world) (s : StockList.State) (l : list Stock) :
  respond w (Get "/stocks") = Fulfilled {| data := Records l |} →
  let shown := StockList.stocks (state_after (run w StockList.fetchStocks s)) in
  (∀ k, with_key k shown = with_key k l)
  ∧ (∀ k, Forall (fun stock => (sort_key stock == k)%Q) l → shown = l).
Proof.
  intros Hr shown.
  destruct (fetchStocks_fulfilled w s _ Hr) as (_ & Hshown & _).
  assert (Hkeys : ∀ k, with_key k shown = with_key k l).
  { intros k. subst shown. rewrite Hshown. apply sort_with_key. }
  split; [exact Hkeys|].
  intros k Hall. rewrite <- (with_key_all k l Hall), <- Hkeys.
  symmetry. apply with_key_all.
  apply Forall_forall. intros x Hx.
  assert (Hin : x ∈ l).
  { subst shown. rewrite Hshown in Hx.
    rewrite (sort_perm StockList.by_score) in Hx. exact Hx. }
  rewrite Forall_forall in Hall. by apply Hall.
Qed.

Lemma fetchStocks_stable_witness :
  let unscored := [sample_stock "KO" Null; sample_stock "AAPL" Undefined;
                   sample_stock "ZERO" (Num 0)] in
  let w := answering (Fulfilled {| data := Records sample_portfolio |}) in
  let w' := answering (Fulfilled {| data := Records unscored |}) in
  (respond w (Get "/stocks") = Fulfilled {| data := Records sample_portfolio |}
   ∧ map symbol (with_key 0
       (StockList.stocks (state_after (run w StockList.fetchStocks StockList.initial))))
     = ["NEW"; "ZERO"])
  ∧ (respond w' (Get "/stocks") = Fulfilled {| data := Records unscored |}
     ∧ Forall (fun stock => (sort_key stock == 0)%Q) unscored
     ∧ StockList.stocks (state_after (run w' StockList.fetchStocks StockList.initial))
       = unscored).
Proof.
  intros unscored w w'.
  assert (Hr : respond w (Get "/stocks") = Fulfilled {| data := Records sample_portfolio |})
    by reflexivity.
  assert (Hr' : respond w' (Get "/stocks") = Fulfilled {| data := Records unscored |})
    by reflexivity.
  assert (Hall : Forall (fun stock => (sort_key stock == 0)%Q) unscored)
    by (repeat constructor).
  destruct (fetchStocks_stable w StockList.initial sample_portfolio Hr) as [Hkeys _].
  destruct (fetchStocks_stable w' StockList.initial unscored Hr') as [_ Hsame].
  split.
  - split; [exact Hr|]. rewrite (Hkeys 0%Q). reflexivity.
  - split; [exact Hr'|]. split; [exact Hall|exact (Hsame 0%Q Hall)].
Defined.

(** X3: in the table that [fetchStocks] installs, every record shown
    earlier has a [total_score || 0] at least that of every record shown
    later, and a record with a strictly higher key is shown strictly
    earlier.  A record without a score counts as 0: it is shown after every
    record with a positive score and before every record with a negative
    one. *)
Theorem fetchStocks_ranking (w : world) (s : StockList.State) (l : list Stock) :
  respond w (Get "/stocks") = Fulfilled {| data := Records l |} →
  let shown := StockList.stocks (state_after (run w StockList.fetchStocks s)) in
  (∀ i j a b, (i < j)%nat → shown !! i = Some a → shown !! j = Some b →
     (sort_key b <= sort_key a)%Q)
  ∧ (∀ i j a b, shown !! i = Some a → shown !! j = Some b →
       (sort_key b < sort_key a)%Q → (i < j)%nat)
  ∧ (∀ i j a b q, shown !! i = Some a → shown !! j = Some b →
       truthy (total_score a) = false → total_score b = Num q →
       ((q < 0)%Q → (i < j)%nat) ∧ ((0 < q)%Q → (j < i)%nat)).
Proof.
  intros Hr shown.
  destruct (fetchStocks_fulfilled w s _ Hr) as (_ & Hshown & _).
  assert (Hsorted : StronglySorted score_desc shown).
  { subst shown. rewrite Hshown. apply sort_by_score_strongly_sorted. }
  assert (Hpairs : ∀ i j a b, (i < j)%nat → shown !! i = Some a → shown !! j = Some b →
                     (sort_key b <= sort_key a)%Q).
  { intros i j a b Hij Ha Hb.
    exact (StronglySorted_lookup score_desc shown i j a b Hsorted Hij Ha Hb). }
  assert (Hstrict : ∀ i j a b, shown !! i = Some a → shown !! j = Some b →
                      (sort_key b < sort_key a)%Q → (i < j)%nat).
  { intros i j a b Ha Hb Hlt.
    destruct (decide (i < j)%nat) as [|Hge]; [done|]. exfalso.
    destruct (decide (i = j)) as [->|Hne].
    - rewrite Ha in Hb. injection Hb as ->. lra.
    - assert (Hji : (j < i)%nat) by lia.
      pose proof (Hpairs j i b a Hji Hb Ha). lra. }
  split; [exact Hpairs|]. split; [exact Hstrict|].
  intros i j a b q Ha Hb Hfalsy Hq.
  pose proof (sort_key_falsy a Hfalsy) as Hkey_a.
  assert (Hkey_b : ¬ (q == 0)%Q → sort_key b = q).
  { intros Hnz. unfold sort_key, or_num, if_truthy. rewrite Hq. simpl.
    destruct (Qeq_bool q 0) eqn:Hz; [|done]. by apply Qeq_bool_iff in Hz. }
  split; intros Hsign.
  - apply (Hstrict i j a b Ha Hb). rewrite Hkey_a, Hkey_b; lra.
  - apply (Hstrict j i b a Hb Ha). rewrite Hkey_a, Hkey_b; lra.
Qed.

Lemma fetchStocks_ranking_witness :
  let w := answering (Fulfilled {| data := Records sample_portfolio |}) in
  let shown := StockList.stocks (state_after (run w StockList.fetchStocks StockList.initial)) in
  respond w (Get "/stocks") = Fulfilled {| data := Records sample_portfolio |}
  (* the never-analyzed NEW is third, the losing LOSS fifth, AAPL first *)
  ∧ shown !! 2%nat = Some (sample_stock "NEW" Null)
  ∧ shown !! 4%nat = Some (sample_stock "LOSS" (Num (-(2 # 1))))
  ∧ shown !! 0%nat = Some (sample_stock "AAPL" (Num (81 # 10)))
  ∧ truthy (total_score (sample_stock "NEW" Null)) = false
  ∧ (-(2 # 1) < 0)%Q ∧ (0 < 81 # 10)%Q
  ∧ (sort_key (sample_stock "LOSS" (Num (-(2 # 1))))
     <= sort_key (sample_stock "NEW" Null))%Q
  ∧ (2 < 4)%nat ∧ (0 < 2)%nat.
Proof.
  intros w shown.
  assert (Hr : respond w (Get "/stocks") = Fulfilled {| data := Records sample_portfolio |})
    by reflexivity.
  assert (Hnew : shown !! 2%nat = Some (sample_stock "NEW" Null)) by reflexivity.
  assert (Hloss : shown !! 4%nat = Some (sample_stock "LOSS" (Num (-(2 # 1)))))
    by reflexivity.
  assert (Haapl : shown !! 0%nat = Some (sample_stock "AAPL" (Num (81 # 10))))
    by reflexivity.
  assert (Hfalsy : truthy (total_score (sample_stock "NEW" Null)) = false) by reflexivity.
  assert (Hneg : (-(2 # 1) < 0)%Q) by reflexivity.
  assert (Hpos : (0 < 81 # 10)%Q) by reflexivity.
  destruct (fetchStocks_ranking w StockList.initial sample_portfolio Hr)
    as (Hpairs & _ & Hunscored).
  split; [exact Hr|]. split; [exact Hnew|]. split; [exact Hloss|]. split; [exact Haapl|].
  split; [exact Hfalsy|]. split; [exact Hneg|]. split; [exact Hpos|].
  split; [apply (Hpairs 2%nat 4%nat _ _ ltac:(lia) Hnew Hloss)|].
  split.
  - exact (proj1 (Hunscored 2%nat 4%nat _ _ _ Hnew Hloss Hfalsy eq_refl) Hneg).
  - exact (proj2 (Hunscored 2%nat 0%nat _ _ _ Hnew Haapl Hfalsy eq_refl) Hpos).
Defined.

(** ** StockList: the mounted list view *)

Lemma gets_app (t1 t2 : list event) : gets (t1 ++ t2)%list = (gets t1 ++ gets t2)%list.
Proof.
  induction t1 as [|ev t1 IH]; [done|].
  destruct ev as [ev|c|[url|url body|url]]; simpl; by rewrite ?IH.
Qed.

Lemma gets_no_requests (t : list event) : requests t = [] → gets t = [].
Proof.
  induction t as [|ev t IH]; [done|].
  destruct ev as [ev|c|r]; simpl; [exact IH..|done].
Qed.

Lemma or_string_nonempty (s : option string) (d : string) :
  d ≠ EmptyString → or_string s d ≠ EmptyString.
Proof.
  intros Hd. destruct s as [[|c s]|]; simpl; [done| |done]. discriminate.
Qed.

Lemma fetchStocks_advance (s : StockList.State) :
  ∃ k, advance (fun _ => Fulfilled tt) StockList.fetchStocks s
       = (Suspended (Get "/stocks") k,
          {| StockList.stocks := StockList.stocks s; StockList.error := StockList.error s;
             StockList.loading := true;
             StockList.selectedStock := StockList.selectedStock s;
             StockList.detailViewOpen := StockList.detailViewOpen s;
             StockList.removingSymbol := StockList.removingSymbol s |},
          [Did (console_log "Fetching stocks from:"); Requested (Get "/stocks")])
       ∧ fetch_like k.
Proof.
  eexists. split; [reflexivity|].
  intros [r|e] s'; cbn; do 2 eexists; (split; [reflexivity|]); done.
Qed.

Lemma handleRemoveStock_advance (shown s : StockList.State) (sym : string) :
  ∃ k, advance (fun _ => Fulfilled tt) (StockList.handleRemoveStock shown sym) s
       = (Suspended (remove_request sym) k, removing sym s, [Requested (remove_request sym)])
       ∧ removal_of (StockList.stocks shown) sym k.
Proof.
  eexists. split; [reflexivity|].
  intros [r|e] s'; cbn; do 2 eexists; (split; [reflexivity|]); done.
Qed.

Lemma page_inv_mounted : page_inv StockListPage.mounted.
Proof.
  unfold StockListPage.mounted, StockListPage.dispatch.
  cbn [StockListPage.state].
  destruct (fetchStocks_advance StockList.initial) as (k & -> & Hfetch).
  simpl.
  split; [done|]. split; [constructor|]. split; [done|].
  left. split; [done|]. by exists k.
Qed.

Lemma page_inv_step (c : StockListPage.config) (i : StockListPage.input) :
  page_inv c → page_inv (StockListPage.step c i).
Proof.
  intros (Hesc & Hsorted & Hgets & Hphase).
  destruct Hphase as [(Hload & k & Hw & Hk)|(Hload & Hws)].
  - (* loading: the rows do not exist, only the answer does something *)
    assert (Hhidden : StockListPage.table_shown (StockListPage.state c) = false)
      by (unfold StockListPage.table_shown; by rewrite Hload).
    destruct i as [i| |i|n o]; simpl; rewrite ?Hhidden;
      try (split; [done|]; split; [done|]; split; [done|]; left; split; [done|]; by exists k).
    rewrite Hw. destruct n as [|n]; simpl.
    + unfold StockListPage.dispatch. simpl.
      destruct (Hk o (StockListPage.state c))
        as (t & s' & -> & Hreq & Hload' & _ & _ & _ & Hout). simpl.
      split; [done|]. split.
      { simpl. destruct o as [r|e]; destruct Hout as [-> _]; [|done].
        apply sort_by_score_strongly_sorted. }
      split; [simpl; by rewrite gets_app, Hgets, (gets_no_requests t Hreq)|].
      right. split; [done|constructor].
    + split; [done|]. split; [done|]. split; [done|]. left. split; [done|]. by exists k.
  - (* loaded *)
    destruct i as [i| |i|n o]; simpl.
    + destruct (StockListPage.table_shown _); [|by repeat split; try right].
      destruct (StockList.stocks _ !! i) as [stock|]; [|by repeat split; try right].
      unfold StockListPage.dispatch. simpl.
      split; [done|]. split; [done|]. split; [by rewrite app_nil_r|]. by right.
    + destruct (StockListPage.table_shown _); [|by repeat split; try right].
      unfold StockListPage.dispatch. simpl.
      split; [done|]. split; [done|]. split; [by rewrite app_nil_r|]. by right.
    + destruct (StockListPage.table_shown _); [|by repeat split; try right].
      destruct (StockList.stocks _ !! i) as [stock|]; [|by repeat split; try right].
      destruct (bool_decide _); [by repeat split; try right|].
      unfold StockListPage.dispatch.
      destruct (handleRemoveStock_advance (StockListPage.state c) (StockListPage.state c)
                  (symbol stock)) as (k & -> & Hk).
      simpl. split; [done|]. split; [done|].
      split; [simpl; by rewrite gets_app, Hgets|].
      right. simpl. split; [done|]. apply Forall_app. split; [done|].
      constructor; [|constructor]. by exists (StockList.stocks (StockListPage.state c)), (symbol stock).
    + destruct (StockListPage.waiting c !! n) as [k|] eqn:Hn; [|by repeat split; try right].
      pose proof (Forall_lookup_1 _ _ _ _ Hws Hn) as (l0 & sym & Hl0 & Hk).
      unfold StockListPage.dispatch. simpl.
      destruct (Hk o (StockListPage.state c))
        as (t & s' & -> & Hreq & Hload' & _ & _ & _ & Hout). simpl.
      split; [done|]. split.
      { simpl. destruct o as [r|e]; destruct Hout as [-> _]; [|done].
        by apply StronglySorted_filter. }
      split; [simpl; by rewrite gets_app, Hgets, (gets_no_requests t Hreq)|].
      right. simpl. split; [congruence|]. by apply Forall_delete.
Qed.

Lemma page_inv_steps (inputs : list StockListPage.input) (c : StockListPage.config) :
  page_inv c → page_inv (StockListPage.steps c inputs).
Proof.
  revert c. induction inputs as [|i inputs IH]; intros c Hc; simpl; [done|].
  apply IH. by apply page_inv_step.
Qed.

Lemma steps_app (c : StockListPage.config) (l1 l2 : list StockListPage.input) :
  StockListPage.steps c (l1 ++ l2) = StockListPage.steps (StockListPage.steps c l1) l2.
Proof. apply foldl_app. Qed.

(** Clicks do nothing unless the table is shown. *)
Lemma step_hidden (c : StockListPage.config) (i : StockListPage.input) :
  StockListPage.table_shown (StockListPage.state c) = false →
  (∀ n o, i ≠ StockListPage.Answer n o) →
  StockListPage.step c i = c.
Proof.
  intros Hhidden Hclick. destruct i as [i| |i|n o]; simpl; rewrite ?Hhidden; [done..|].
  by destruct (Hclick n o).
Qed.

Lemma loaded_step (c : StockListPage.config) (i : StockListPage.input) :
  page_inv c →
  StockList.loading (StockListPage.state c) = false →
  StockList.loading (StockListPage.state (StockListPage.step c i)) = false.
Proof.
  intros Hinv Hload. pose proof (page_inv_step c i Hinv) as (_ & _ & _ & Hphase).
  destruct Hinv as (_ & _ & _ & [(Hload' & _)|(_ & Hws)]); [congruence|].
  destruct i as [i| |i|n o]; simpl.
  - destruct (StockListPage.table_shown _); [|done].
    by destruct (StockList.stocks _ !! i).
  - by destruct (StockListPage.table_shown _).
  - destruct (StockListPage.table_shown _); [|done].
    destruct (StockList.stocks _ !! i) as [stock|]; [|done].
    by destruct (bool_decide _).
  - destruct (StockListPage.waiting c !! n) as [k|] eqn:Hn; [|done].
    pose proof (Forall_lookup_1 _ _ _ _ Hws Hn) as (l0 & sym & _ & Hk).
    unfold StockListPage.dispatch. simpl.
    destruct (Hk o (StockListPage.state c)) as (t & s' & -> & _ & Hload' & _). simpl.
    congruence.
Qed.

Lemma error_step (c : StockListPage.config) (i : StockListPage.input) :
  page_inv c →
  StockList.error (StockListPage.state c) ≠ EmptyString →
  StockList.error (StockListPage.state (StockListPage.step c i)) ≠ EmptyString.
Proof.
  intros Hinv Herr.
  assert (Hhidden : StockListPage.table_shown (StockListPage.state c) = false).
  { unfold StockListPage.table_shown.
    destruct (StockList.error (StockListPage.state c)); [done|].
    simpl. apply andb_false_r. }
  destruct i as [i| |i|n o]; try (rewrite step_hidden; done).
  simpl. destruct (StockListPage.waiting c !! n) as [k|] eqn:Hn; [|done].
  unfold StockListPage.dispatch. simpl.
  destruct Hinv as (_ & _ & _ & [(_ & kf & Hw & Hk)|(_ & Hws)]).
  - rewrite Hw in Hn. destruct n as [|n]; [|done]. injection Hn as <-.
    destruct (Hk o (StockListPage.state c)) as (t & s' & -> & _ & _ & _ & _ & _ & Hout).
    simpl. destruct o as [r|e]; destruct Hout as [_ ->]; done.
  - pose proof (Forall_lookup_1 _ _ _ _ Hws Hn) as (l0 & sym & _ & Hk).
    destruct (Hk o (StockListPage.state c)) as (t & s' & -> & _ & _ & _ & _ & _ & Hout).
    simpl. destruct o as [r|e]; destruct Hout as [_ ->]; [done|].
    by apply or_string_nonempty.
Qed.

Lemma loaded_steps (more : list StockListPage.input) (c : StockListPage.config) :
  page_inv c →
  StockList.loading (StockListPage.state c) = false →
  StockList.loading (StockListPage.state (StockListPage.steps c more)) = false.
Proof.
  revert c. induction more as [|i more IH]; intros c Hinv Hload; [done|].
  simpl. apply IH; [by apply page_inv_step|by apply loaded_step].
Qed.

Lemma error_steps (more : list StockListPage.input) (c : StockListPage.config) :
  page_inv c →
  StockList.error (StockListPage.state c) ≠ EmptyString →
  StockList.error (StockListPage.state (StockListPage.steps c more)) ≠ EmptyString.
Proof.
  revert c. induction more as [|i more IH]; intros c Hinv Herr; [done|].
  simpl. apply IH; [by apply page_inv_step|by apply error_step].
Qed.

Lemma render_hidden `{NumberToString} (s : StockList.State) :
  StockListPage.table_shown s = false →
  ∀ table detail, StockList.render s ≠ StockList.Portfolio table detail.
Proof.
  unfold StockListPage.table_shown, StockList.render. intros Hhidden table detail.
  destruct (StockList.loading s); [done|].
  destruct (truthy_string (StockList.error s)); done.
Qed.

(** X4: whatever the user clicks and in whatever order the answers
    arrive, the list the mounted view holds is in score order: a record
    shown earlier has a [total_score || 0] at least that of any record
    shown later; and no handler of the view ever ends in an unhandled
    rejection. *)
Theorem list_view_always_ordered (inputs : list StockListPage.input) :
  let c := StockListPage.steps StockListPage.mounted inputs in
  (∀ i j a b, (i < j)%nat →
     StockList.stocks (StockListPage.state c) !! i = Some a →
     StockList.stocks (StockListPage.state c) !! j = Some b →
     (sort_key b <= sort_key a)%Q)
  ∧ StockListPage.escaped c = [].
Proof.
  intros c.
  destruct (page_inv_steps inputs _ page_inv_mounted) as (Hesc & Hsorted & _).
  split; [|exact Hesc].
  intros i j a b Hij Ha Hb.
  exact (StronglySorted_lookup score_desc _ i j a b Hsorted Hij Ha Hb).
Qed.

(** X5: the mounted view sends [GET /stocks] exactly once, whatever
    happens afterwards.  While [loading] is true that request is the only
    open one and every click is without effect; its answer, success or
    failure, ends loading, and loading never starts again. *)
Theorem list_view_loads_once (inputs more : list StockListPage.input) :
  let c := StockListPage.steps StockListPage.mounted inputs in
  gets (StockListPage.log c) = ["/stocks"]
  ∧ (StockList.loading (StockListPage.state c) = true →
       length (StockListPage.waiting c) = 1%nat
       ∧ (∀ i, StockListPage.step c (StockListPage.ViewDetails i) = c
               ∧ StockListPage.step c (StockListPage.Remove i) = c)
       ∧ StockListPage.step c StockListPage.CloseDetails = c
       ∧ ∀ o, StockList.loading
                (StockListPage.state (StockListPage.step c (StockListPage.Answer 0 o)))
              = false)
  ∧ (StockList.loading (StockListPage.state c) = false →
       StockList.loading (StockListPage.state (StockListPage.steps c more)) = false).
Proof.
  intros c.
  pose proof (page_inv_steps inputs _ page_inv_mounted) as Hinv. fold c in Hinv.
  split; [apply Hinv|]. split.
  - intros Hload.
    assert (Hhidden : StockListPage.table_shown (StockListPage.state c) = false)
      by (unfold StockListPage.table_shown; by rewrite Hload).
    destruct Hinv as (_ & _ & _ & [(_ & k & Hw & Hk)|(Hload' & _)]); [|congruence].
    split; [by rewrite Hw|]. split; [|split].
    + intros i. split; by apply step_hidden.
    + by apply step_hidden.
    + intros o. simpl. rewrite Hw. simpl. unfold StockListPage.dispatch. simpl.
      by destruct (Hk o (StockListPage.state c)) as (t & s' & -> & _ & Hload' & _).
  - intros Hload. by apply loaded_steps.
Qed.

(** X6: once the mounted view holds an error text, no click and no
    answer ever clears it: the error text stays non-empty, so the component
    never returns the table again; and while it is shown every click is
    without effect. *)
Theorem list_view_error_is_final `{NumberToString}
    (inputs more : list StockListPage.input) :
  let c := StockListPage.steps StockListPage.mounted inputs in
  let c' := StockListPage.steps c more in
  StockList.error (StockListPage.state c) ≠ EmptyString →
  StockList.error (StockListPage.state c') ≠ EmptyString
  ∧ (∀ table detail,
       StockList.render (StockListPage.state c') ≠ StockList.Portfolio table detail)
  ∧ (∀ i, StockListPage.step c' (StockListPage.ViewDetails i) = c'
          ∧ StockListPage.step c' (StockListPage.Remove i) = c')
  ∧ StockListPage.step c' StockListPage.CloseDetails = c'.
Proof.
  intros c c' Herr.
  pose proof (page_inv_steps inputs _ page_inv_mounted) as Hinv. fold c in Hinv.
  pose proof (error_steps more c Hinv Herr) as Herr'. fold c' in Herr'.
  assert (Hhidden : StockListPage.table_shown (StockListPage.state c') = false).
  { unfold StockListPage.table_shown.
    destruct (StockList.error (StockListPage.state c')); [done|].
    simpl. apply andb_false_r. }
  split; [exact Herr'|]. split; [by apply render_hidden|]. split.
  - intros i. split; by apply step_hidden.
  - by apply step_hidden.
Qed.

Lemma list_view_always_ordered_witness :
  let c := StockListPage.steps StockListPage.mounted
             [ StockListPage.Answer 0 portfolio_answer; StockListPage.Remove 1;
               StockListPage.Answer 0 empty_answer ] in
  map symbol (StockList.stocks (StockListPage.state c)) = ["AAPL"; "NEW"; "ZERO"; "LOSS"]
  ∧ (0 < 3)%nat
  ∧ StockList.stocks (StockListPage.state c) !! 0%nat
    = Some (sample_stock "AAPL" (Num (81 # 10)))
  ∧ StockList.stocks (StockListPage.state c) !! 3%nat
    = Some (sample_stock "LOSS" (Num (-(2 # 1))))
  ∧ (sort_key (sample_stock "LOSS" (Num (-(2 # 1))))
     <= sort_key (sample_stock "AAPL" (Num (81 # 10))))%Q.
Proof.
  intros c.
  assert (Hlt : (0 < 3)%nat) by lia.
  assert (Hfirst : StockList.stocks (StockListPage.state c) !! 0%nat
                   = Some (sample_stock "AAPL" (Num (81 # 10)))) by reflexivity.
  assert (Hlast : StockList.stocks (StockListPage.state c) !! 3%nat
                  = Some (sample_stock "LOSS" (Num (-(2 # 1))))) by reflexivity.
  destruct (list_view_always_ordered
              [ StockListPage.Answer 0 portfolio_answer; StockListPage.Remove 1;
                StockListPage.Answer 0 empty_answer ]) as [Hordered _].
  split; [reflexivity|]. split; [exact Hlt|]. split; [exact Hfirst|].
  split; [exact Hlast|]. exact (Hordered 0%nat 3%nat _ _ Hlt Hfirst Hlast).
Defined.

Lemma list_view_loads_once_witness :
  let c0 := StockListPage.steps StockListPage.mounted [] in
  let c1 := StockListPage.steps StockListPage.mounted [StockListPage.Answer 0 portfolio_answer] in
  (* just mounted: loading, clicks are without effect *)
  (StockList.loading (StockListPage.state c0) = true
   ∧ length (StockListPage.waiting c0) = 1%nat
   ∧ StockListPage.step c0 (StockListPage.Remove 0) = c0
   ∧ StockList.loading (StockListPage.state
       (StockListPage.step c0 (StockListPage.Answer 0 (Rejected network_error)))) = false)
  (* loaded: a removal and its failure do not bring the spinner back *)
  ∧ (StockList.loading (StockListPage.state c1) = false
     ∧ StockList.loading (StockListPage.state
         (StockListPage.steps c1 [ StockListPage.Remove 0;
                                    StockListPage.Answer 0 (Rejected network_error) ]))
       = false
     ∧ gets (StockListPage.log c1) = ["/stocks"]).
Proof.
  intros c0 c1.
  assert (Hloading : StockList.loading (StockListPage.state c0) = true) by reflexivity.
  assert (Hloaded : StockList.loading (StockListPage.state c1) = false) by reflexivity.
  destruct (list_view_loads_once [] []) as (_ & Hwhile & _).
  destruct (Hwhile Hloading) as (Hone & Hclicks & _ & Hends).
  destruct (list_view_loads_once [StockListPage.Answer 0 portfolio_answer]
              [ StockListPage.Remove 0; StockListPage.Answer 0 (Rejected network_error) ])
    as (Hgets & _ & Hstays).
  split.
  - split; [exact Hloading|]. split; [exact Hone|].
    split; [exact (proj2 (Hclicks 0%nat))|exact (Hends (Rejected network_error))].
  - split; [exact Hloaded|]. split; [exact (Hstays Hloaded)|exact Hgets].
Defined.

Lemma list_view_error_is_final_witness :
  let c := StockListPage.steps StockListPage.mounted
             [ StockListPage.Answer 0 portfolio_answer; StockListPage.Remove 0;
               StockListPage.Answer 0 (Rejected network_error) ] in
  let c' := StockListPage.steps c
              [ StockListPage.Remove 1; StockListPage.ViewDetails 0;
                StockListPage.CloseDetails ] in
  StockList.error (StockListPage.state c) = "Failed to remove stock"
  ∧ StockList.error (StockListPage.state c) ≠ EmptyString
  ∧ StockList.error (StockListPage.state c') ≠ EmptyString
  ∧ (∀ table detail,
       @StockList.render integer_to_string (StockListPage.state c')
       ≠ StockList.Portfolio table detail)
  ∧ StockListPage.step c' (StockListPage.Remove 2) = c'.
Proof.
  intros c c'.
  assert (Herr : StockList.error (StockListPage.state c) ≠ EmptyString) by discriminate.
  destruct (@list_view_error_is_final integer_to_string
              [ StockListPage.Answer 0 portfolio_answer; StockListPage.Remove 0;
                StockListPage.Answer 0 (Rejected network_error) ]
              [ StockListPage.Remove 1; StockListPage.ViewDetails 0;
                StockListPage.CloseDetails ] Herr)
    as (Hstays & Hview & Hclicks & _).
  split; [reflexivity|]. split; [exact Herr|]. split; [exact Hstays|].
  split; [exact Hview|exact (proj2 (Hclicks 2%nat))].
Defined.

(** ** StockList: removals *)

Lemma step_remove (c : StockListPage.config) (i : nat) (stock : Stock) :
  StockListPage.table_shown (StockListPage.state c) = true →
  StockList.stocks (StockListPage.state c) !! i = Some stock →
  StockList.removingSymbol (StockListPage.state c) ≠ Some (symbol stock) →
  ∃ k, StockListPage.step c (StockListPage.Remove i)
       = {| StockListPage.state := removing (symbol stock) (StockListPage.state c);
            StockListPage.waiting := StockListPage.waiting c ++ [k];
            StockListPage.log :=
              StockListPage.log c ++ [Requested (remove_request (symbol stock))];
            StockListPage.escaped := StockListPage.escaped c |}
       ∧ removal_of (StockList.stocks (StockListPage.state c)) (symbol stock) k.
Proof.
  intros Hshown Hi Hfree. simpl. rewrite Hshown, Hi.
  rewrite bool_decide_eq_false_2 by done.
  unfold StockListPage.dispatch.
  destruct (handleRemoveStock_advance (StockListPage.state c) (StockListPage.state c)
              (symbol stock)) as (k & -> & Hk).
  by exists k.
Qed.

Lemma step_answer_removal (c : StockListPage.config) (n : nat) (l0 : list Stock)
    (sym : string) (k : outcome response → prog StockList.State unit) (r : response) :
  StockListPage.waiting c !! n = Some k →
  removal_of l0 sym k →
  StockList.stocks (StockListPage.state
    (StockListPage.step c (StockListPage.Answer n (Fulfilled r))))
  = filter (fun stock => symbol stock ≠ sym) l0
  ∧ StockListPage.waiting (StockListPage.step c (StockListPage.Answer n (Fulfilled r)))
    = delete n (StockListPage.waiting c).
Proof.
  intros Hn Hk. simpl. rewrite Hn. unfold StockListPage.dispatch. simpl.
  destruct (Hk (Fulfilled r) (StockListPage.state c))
    as (t & s' & -> & _ & _ & _ & _ & _ & Hstocks & _).
  done.
Qed.

(** X7: two removals under way at the same time do not add up.  When the
    table is shown with no request open, and Remove is clicked on a row and
    then on a row of another symbol before the first answer has arrived,
    then after both requests have succeeded the list is the list of before
    without the symbol whose answer arrived last; the records of the symbol
    whose answer arrived first are back in the list. *)
Theorem overlapping_removals_keep_last (c : StockListPage.config) (i j : nat)
    (a b : Stock) (ra rb : response) :
  StockListPage.table_shown (StockListPage.state c) = true →
  StockListPage.waiting c = [] →
  StockList.removingSymbol (StockListPage.state c) = None →
  StockList.stocks (StockListPage.state c) !! i = Some a →
  StockList.stocks (StockListPage.state c) !! j = Some b →
  symbol a ≠ symbol b →
  let l := StockList.stocks (StockListPage.state c) in
  let a_then_b :=
    StockListPage.steps c
      [ StockListPage.Remove i; StockListPage.Remove j;
        StockListPage.Answer 0 (Fulfilled ra); StockListPage.Answer 0 (Fulfilled rb) ] in
  let b_then_a :=
    StockListPage.steps c
      [ StockListPage.Remove i; StockListPage.Remove j;
        StockListPage.Answer 1 (Fulfilled rb); StockListPage.Answer 0 (Fulfilled ra) ] in
  StockList.stocks (StockListPage.state a_then_b)
    = filter (fun stock => symbol stock ≠ symbol b) l
  ∧ a ∈ StockList.stocks (StockListPage.state a_then_b)
  ∧ StockList.stocks (StockListPage.state b_then_a)
    = filter (fun stock => symbol stock ≠ symbol a) l
  ∧ b ∈ StockList.stocks (StockListPage.state b_then_a).
Proof.
  intros Hshown Hidle Hnone Ha Hb Hab l a_then_b b_then_a.
  destruct (step_remove c i a Hshown Ha) as (ka & Hstep1 & Hka).
  { rewrite Hnone. discriminate. }
  remember (StockListPage.step c (StockListPage.Remove i)) as c1 eqn:Hc1.
  assert (Hstate1 : StockListPage.state c1 = removing (symbol a) (StockListPage.state c))
    by (by rewrite Hstep1).
  assert (Hwaiting1 : StockListPage.waiting c1 = [ka])
    by (by rewrite Hstep1; simpl; rewrite Hidle).
  destruct (step_remove c1 j b) as (kb & Hstep2 & Hkb).
  { by rewrite Hstate1. }
  { by rewrite Hstate1. }
  { rewrite Hstate1. simpl. congruence. }
  remember (StockListPage.step c1 (StockListPage.Remove j)) as c2 eqn:Hc2.
  assert (Hwaiting2 : StockListPage.waiting c2 = [ka; kb])
    by (by rewrite Hstep2; simpl; rewrite Hwaiting1).
  rewrite Hstate1 in Hkb. simpl in Hkb. fold l in Hka, Hkb.
  assert (Hina : a ∈ l) by (by apply list_elem_of_lookup_2 with i).
  assert (Hinb : b ∈ l) by (by apply list_elem_of_lookup_2 with j).
  assert (Hfirst : StockList.stocks (StockListPage.state a_then_b)
                   = filter (fun stock => symbol stock ≠ symbol b) l).
  { subst a_then_b. unfold StockListPage.steps. cbn [foldl].
    rewrite <- Hc1, <- Hc2.
    remember (StockListPage.step c2 (StockListPage.Answer 0 (Fulfilled ra))) as c3 eqn:Hc3.
    destruct (step_answer_removal c2 0 l (symbol a) ka ra) as [_ Hw3];
      [by rewrite Hwaiting2|done|].
    rewrite <- Hc3, Hwaiting2 in Hw3. simpl in Hw3.
    destruct (step_answer_removal c3 0 l (symbol b) kb rb) as [Hstocks _];
      [by rewrite Hw3|done|exact Hstocks]. }
  assert (Hsecond : StockList.stocks (StockListPage.state b_then_a)
                    = filter (fun stock => symbol stock ≠ symbol a) l).
  { subst b_then_a. unfold StockListPage.steps. cbn [foldl].
    rewrite <- Hc1, <- Hc2.
    remember (StockListPage.step c2 (StockListPage.Answer 1 (Fulfilled rb))) as c3 eqn:Hc3.
    destruct (step_answer_removal c2 1 l (symbol b) kb rb) as [_ Hw3];
      [by rewrite Hwaiting2|done|].
    rewrite <- Hc3, Hwaiting2 in Hw3. simpl in Hw3.
    destruct (step_answer_removal c3 0 l (symbol a) ka ra) as [Hstocks _];
      [by rewrite Hw3|done|exact Hstocks]. }
  split; [exact Hfirst|]. split; [rewrite Hfirst; by apply list_elem_of_filter|].
  split; [exact Hsecond|]. rewrite Hsecond. apply list_elem_of_filter. split; [congruence|done].
Qed.

Lemma overlapping_removals_keep_last_witness :
  let c := StockListPage.steps StockListPage.mounted [StockListPage.Answer 0 portfolio_answer] in
  let aapl := sample_stock "AAPL" (Num (81 # 10)) in
  let ko := sample_stock "KO" (Num (62 # 10)) in
  let a_then_b :=
    StockListPage.steps c
      [ StockListPage.Remove 0; StockListPage.Remove 1;
        StockListPage.Answer 0 empty_answer; StockListPage.Answer 0 empty_answer ] in
  StockListPage.table_shown (StockListPage.state c) = true
  ∧ StockListPage.waiting c = []
  ∧ StockList.removingSymbol (StockListPage.state c) = None
  ∧ StockList.stocks (StockListPage.state c) !! 0%nat = Some aapl
  ∧ StockList.stocks (StockListPage.state c) !! 1%nat = Some ko
  ∧ symbol aapl ≠ symbol ko
  ∧ map symbol (StockList.stocks (StockListPage.state a_then_b))
    = ["AAPL"; "NEW"; "ZERO"; "LOSS"]
  ∧ aapl ∈ StockList.stocks (StockListPage.state a_then_b).
Proof.
  intros c aapl ko a_then_b.
  assert (Hshown : StockListPage.table_shown (StockListPage.state c) = true) by reflexivity.
  assert (Hidle : StockListPage.waiting c = []) by reflexivity.
  assert (Hnone : StockList.removingSymbol (StockListPage.state c) = None) by reflexivity.
  assert (Ha : StockList.stocks (StockListPage.state c) !! 0%nat = Some aapl) by reflexivity.
  assert (Hb : StockList.stocks (StockListPage.state c) !! 1%nat = Some ko) by reflexivity.
  assert (Hab : symbol aapl ≠ symbol ko) by discriminate.
  destruct (overlapping_removals_keep_last c 0 1 aapl ko
              {| data := Other NNull |} {| data := Other NNull |}
              Hshown Hidle Hnone Ha Hb Hab) as (_ & Hback & _).
  split; [exact Hshown|]. split; [exact Hidle|]. split; [exact Hnone|].
  split; [exact Ha|]. split; [exact Hb|]. split; [exact Hab|].
  split; [reflexivity|exact Hback].
Defined.

(** X8: removals that follow one another add up and commute: removing
    [a] and then, from the list so shown, [b] leaves exactly the records
    whose symbol is neither, the same list as removing [b] and then [a];
    removing a symbol a second time changes nothing; a removal never
    lengthens the list, and when no shown record has the symbol the list
    stays as it is. *)
Theorem sequential_removals_compose (w : world) (s : StockList.State) (a b : string)
    (ra rb : response) :
  respond w (remove_request a) = Fulfilled ra →
  respond w (remove_request b) = Fulfilled rb →
  let after sym st := state_after (run w (StockList.handleRemoveStock st sym) st) in
  StockList.stocks (after b (after a s))
    = filter (fun stock => symbol stock ≠ b ∧ symbol stock ≠ a) (StockList.stocks s)
  ∧ StockList.stocks (after b (after a s)) = StockList.stocks (after a (after b s))
  ∧ StockList.stocks (after a (after a s)) = StockList.stocks (after a s)
  ∧ (length (StockList.stocks (after a s)) ≤ length (StockList.stocks s))%nat
  ∧ ((∀ stock, stock ∈ StockList.stocks s → symbol stock ≠ a) →
       StockList.stocks (after a s) = StockList.stocks s).
Proof.
  intros Ha Hb after.
  assert (Hafter_a : ∀ st, StockList.stocks (after a st)
                           = filter (fun stock => symbol stock ≠ a) (StockList.stocks st)).
  { intros st. destruct (handleRemoveStock_run w st st a) as (_ & _ & _ & Hout).
    rewrite Ha in Hout. apply Hout. }
  assert (Hafter_b : ∀ st, StockList.stocks (after b st)
                           = filter (fun stock => symbol stock ≠ b) (StockList.stocks st)).
  { intros st. destruct (handleRemoveStock_run w st st b) as (_ & _ & _ & Hout).
    rewrite Hb in Hout. apply Hout. }
  split; [by rewrite Hafter_b, Hafter_a, list_filter_filter|].
  split.
  { rewrite Hafter_b, !Hafter_a, Hafter_b, !list_filter_filter.
    apply list_filter_iff. intros stock. tauto. }
  split.
  { rewrite !Hafter_a, list_filter_filter. apply list_filter_iff. intros stock. tauto. }
  split; [rewrite Hafter_a; apply length_filter|].
  intros Hnone. rewrite Hafter_a.
  induction (StockList.stocks s) as [|x l IH]; [done|].
  rewrite filter_cons, decide_True by (apply Hnone, list_elem_of_here).
  f_equal. apply IH. intros stock Hin. by apply Hnone, list_elem_of_further.
Qed.

Lemma sequential_removals_compose_witness :
  let w := answering empty_answer in
  let s := showing sample_portfolio in
  let after sym st := state_after (run w (StockList.handleRemoveStock st sym) st) in
  respond w (remove_request "KO") = Fulfilled {| data := Other NNull |}
  ∧ respond w (remove_request "LOSS") = Fulfilled {| data := Other NNull |}
  ∧ map symbol (StockList.stocks (after "LOSS" (after "KO" s))) = ["NEW"; "AAPL"; "ZERO"]
  ∧ StockList.stocks (after "LOSS" (after "KO" s))
    = StockList.stocks (after "KO" (after "LOSS" s))
  ∧ (∀ stock, stock ∈ StockList.stocks s → symbol stock ≠ "MSFT")
  ∧ respond w (remove_request "MSFT") = Fulfilled {| data := Other NNull |}
  ∧ StockList.stocks (after "MSFT" s) = StockList.stocks s.
Proof.
  intros w s after.
  assert (Hko : respond w (remove_request "KO") = Fulfilled {| data := Other NNull |})
    by reflexivity.
  assert (Hloss : respond w (remove_request "LOSS") = Fulfilled {| data := Other NNull |})
    by reflexivity.
  assert (Hmsft : respond w (remove_request "MSFT") = Fulfilled {| data := Other NNull |})
    by reflexivity.
  assert (Hnone : ∀ stock, stock ∈ StockList.stocks s → symbol stock ≠ "MSFT").
  { intros stock Hin. simpl in Hin.
    repeat (apply elem_of_cons in Hin as [->|Hin]; [discriminate|]).
    by apply elem_of_nil in Hin. }
  destruct (sequential_removals_compose w s "KO" "LOSS" _ _ Hko Hloss)
    as (_ & Hcommute & _).
  destruct (sequential_removals_compose w s "MSFT" "MSFT" _ _ Hmsft Hmsft)
    as (_ & _ & _ & _ & Hsame).
  split; [exact Hko|]. split; [exact Hloss|]. split; [reflexivity|].
  split; [exact Hcommute|]. split; [exact Hnone|]. split; [exact Hmsft|exact (Hsame Hnone)].
Defined.

Lemma table_shown_true (s : StockList.State) :
  StockListPage.table_shown s = true →
  StockList.loading s = false ∧ truthy_string (StockList.error s) = false.
Proof.
  unfold StockListPage.table_shown. intros Hshown.
  apply andb_true_iff in Hshown as [Hload Herr].
  by apply negb_true_iff in Hload, Herr.
Qed.

(** The component returns the table exactly when it is neither loading nor
    holding an error text. *)
Lemma render_table `{NumberToString} (s : StockList.State) :
  StockListPage.table_shown s = true →
  StockList.render s
  = StockList.Portfolio (map (StockList.render_row s) (StockList.stocks s))
      (StockDetailView.render (StockList.detailViewOpen s) (StockList.selectedStock s)).
Proof.
  intros Hshown. destruct (table_shown_true s Hshown) as [Hload Herr].
  unfold StockList.render. by rewrite Hload, Herr.
Qed.

Lemma render_error `{NumberToString} (s : StockList.State) :
  StockList.loading s = false →
  StockList.error s ≠ EmptyString →
  StockList.render s = StockList.ErrorText (StockList.error s).
Proof.
  intros Hload Herr. unfold StockList.render. rewrite Hload.
  by destruct (StockList.error s).
Qed.

Lemma filter_never {A} (P : A → Prop) `{∀ x, Decision (P x)} (l : list A) :
  (∀ x, ¬ P x) → filter P l = [].
Proof.
  intros Hnever. induction l as [|x l IH]; [done|].
  by rewrite filter_cons, decide_False.
Qed.

(** The rows with a disabled Remove button are those of [removingSymbol]. *)
Lemma disabled_rows (s : StockList.State) `{NumberToString} (l : list Stock) :
  map StockList.row_symbol
    (filter (fun r => StockList.remove_disabled r = true) (map (StockList.render_row s) l))
  = filter (fun sym => StockList.removingSymbol s = Some sym) (map symbol l).
Proof.
  induction l as [|x l IH]; [done|].
  cbn [map]. rewrite !filter_cons.
  destruct (decide (StockList.removingSymbol s = Some (symbol x))) as [Heq|Hne].
  - rewrite decide_True by (simpl; by apply bool_decide_eq_true_2).
    cbn [map]. by rewrite IH.
  - rewrite decide_False by (simpl; rewrite bool_decide_eq_false_2; done).
    exact IH.
Qed.

Lemma disabled_removes_render `{NumberToString} (s : StockList.State) :
  disabled_removes (StockList.render s)
  = if StockListPage.table_shown s
    then filter (fun sym => StockList.removingSymbol s = Some sym)
           (map symbol (StockList.stocks s))
    else [].
Proof.
  unfold StockList.render, StockListPage.table_shown.
  destruct (StockList.loading s); [done|].
  destruct (truthy_string (StockList.error s)); [done|].
  simpl. apply disabled_rows.
Qed.

Lemma nothing_disabled `{NumberToString} (s : StockList.State) :
  StockList.removingSymbol s = None → disabled_removes (StockList.render s) = [].
Proof.
  intros Hs. rewrite disabled_removes_render.
  destruct (StockListPage.table_shown s); [|done].
  apply filter_never. intros sym. rewrite Hs. discriminate.
Qed.

Lemma delete_app_l {A} (n : nat) (l1 l2 : list A) :
  (n < length l1)%nat → delete n (l1 ++ l2)%list = (delete n l1 ++ l2)%list.
Proof.
  revert n. induction l1 as [|x l1 IH]; intros n Hn; simpl in Hn; [lia|].
  destruct n as [|n]; [done|]. simpl. f_equal. apply IH. lia.
Qed.

(** The answer to an open removal, at any state of the page. *)
Lemma step_answer (c : StockListPage.config) (n : nat) (l0 : list Stock)
    (sym : string) (k : outcome response → prog StockList.State unit)
    (o : outcome response) :
  StockListPage.waiting c !! n = Some k →
  removal_of l0 sym k →
  let c' := StockListPage.step c (StockListPage.Answer n o) in
  StockListPage.waiting c' = delete n (StockListPage.waiting c)
  ∧ StockList.loading (StockListPage.state c') = StockList.loading (StockListPage.state c)
  ∧ StockList.removingSymbol (StockListPage.state c') = None
  ∧ StockList.selectedStock (StockListPage.state c')
    = StockList.selectedStock (StockListPage.state c)
  ∧ StockList.detailViewOpen (StockListPage.state c')
    = StockList.detailViewOpen (StockListPage.state c)
  ∧ match o with
    | Fulfilled _ =>
        StockList.stocks (StockListPage.state c')
        = filter (fun stock => symbol stock ≠ sym) l0
        ∧ StockList.error (StockListPage.state c') = StockList.error (StockListPage.state c)
    | Rejected e =>
        StockList.stocks (StockListPage.state c') = StockList.stocks (StockListPage.state c)
        ∧ StockList.error (StockListPage.state c')
          = or_string (response_message e) "Failed to remove stock"
    end.
Proof.
  intros Hn Hk. simpl. rewrite Hn. unfold StockListPage.dispatch. simpl.
  destruct (Hk o (StockListPage.state c))
    as (t & s' & -> & _ & Hload & Hnone & Hsel & Hopen & Hout).
  done.
Qed.

(** While the table is shown, every open request is a removal. *)
Lemma open_removals (c : StockListPage.config) :
  page_inv c →
  StockListPage.table_shown (StockListPage.state c) = true →
  Forall ordered_removal (StockListPage.waiting c).
Proof.
  intros (_ & _ & _ & [(Hload & _)|(_ & Hws)]) Hshown; [|done].
  destruct (table_shown_true _ Hshown) as [Hload' _]. congruence.
Qed.

(** X9: the Remove button that is disabled follows the last click, not the
    requests that are open.  A click on an enabled Remove button sends the
    [DELETE] and disables the Remove buttons of exactly the rows of that
    symbol.  A click on the Remove button of another symbol, while the
    first [DELETE] is still open, disables that symbol's rows and enables
    the first symbol's again; a click on the disabled button does nothing.
    The answer to any open removal, whether this one or an earlier one that
    leaves this [DELETE] open, leaves no disabled Remove button on
    screen. *)
Theorem remove_disabled_follows_last_click `{NumberToString}
    (inputs : list StockListPage.input) (i : nat) (a : Stock) :
  let c := StockListPage.steps StockListPage.mounted inputs in
  StockListPage.table_shown (StockListPage.state c) = true →
  StockList.stocks (StockListPage.state c) !! i = Some a →
  StockList.removingSymbol (StockListPage.state c) ≠ Some (symbol a) →
  let l := StockList.stocks (StockListPage.state c) in
  let disabled c' := disabled_removes (StockList.render (StockListPage.state c')) in
  let clicked := StockListPage.step c (StockListPage.Remove i) in
  ∃ ka,
    removal_of l (symbol a) ka
    ∧ StockListPage.waiting clicked = (StockListPage.waiting c ++ [ka])%list
    ∧ requests (StockListPage.log clicked)
      = (requests (StockListPage.log c) ++ [remove_request (symbol a)])%list
    ∧ disabled clicked = filter (fun sym => sym = symbol a) (map symbol l)
    ∧ (∀ j b, l !! j = Some b → symbol b = symbol a →
         StockListPage.step clicked (StockListPage.Remove j) = clicked)
    ∧ (∀ j b, l !! j = Some b → symbol b ≠ symbol a →
         let second := StockListPage.step clicked (StockListPage.Remove j) in
         ∃ kb,
           removal_of l (symbol b) kb
           ∧ StockListPage.waiting second = (StockListPage.waiting c ++ [ka; kb])%list
           ∧ disabled second = filter (fun sym => sym = symbol b) (map symbol l)
           ∧ symbol a ∉ disabled second)
    ∧ (∀ n o, (n < length (StockListPage.waiting c))%nat →
         let answered := StockListPage.step clicked (StockListPage.Answer n o) in
         StockListPage.waiting answered = (delete n (StockListPage.waiting c) ++ [ka])%list
         ∧ disabled answered = [])
    ∧ (∀ o,
         let answered :=
           StockListPage.step clicked
             (StockListPage.Answer (length (StockListPage.waiting c)) o) in
         StockListPage.waiting answered = StockListPage.waiting c
         ∧ disabled answered = []).
Proof.
  intros c Hshown Hi Hfree l disabled clicked.
  assert (Hinv : page_inv c) by apply page_inv_steps, page_inv_mounted.
  clearbody c.
  pose proof (open_removals c Hinv Hshown) as Hopen.
  destruct (step_remove c i a Hshown Hi Hfree) as (ka & Hclicked & Hka).
  fold clicked in Hclicked. fold l in Hka. clearbody clicked.
  assert (Hstate : StockListPage.state clicked = removing (symbol a) (StockListPage.state c))
    by (by rewrite Hclicked).
  assert (Hwaiting : StockListPage.waiting clicked = (StockListPage.waiting c ++ [ka])%list)
    by (by rewrite Hclicked).
  assert (Hshown' : StockListPage.table_shown (StockListPage.state clicked) = true)
    by (by rewrite Hstate).
  assert (Hnone : ∀ c', StockList.removingSymbol (StockListPage.state c') = None →
                        disabled c' = [])
    by (intros c' Hc'; by apply nothing_disabled).
  exists ka. split; [exact Hka|]. split; [exact Hwaiting|]. split.
  { rewrite Hclicked. simpl. clear. induction (StockListPage.log c) as [|ev t IH]; [done|].
    destruct ev; simpl; by rewrite ?IH. }
  split.
  { unfold disabled. rewrite disabled_removes_render, Hshown', Hstate. simpl.
    apply list_filter_iff. intros sym. split; [by intros [= ->]|by intros ->]. }
  split.
  { intros j b Hj Hb. simpl. rewrite Hshown', Hstate. simpl. fold l. rewrite Hj.
    by rewrite bool_decide_eq_true_2 by (by rewrite Hb). }
  split.
  { intros j b Hj Hb second.
    destruct (step_remove clicked j b) as (kb & Hsecond & Hkb).
    { exact Hshown'. }
    { by rewrite Hstate. }
    { rewrite Hstate. simpl. congruence. }
    fold second in Hsecond. clearbody second.
    rewrite Hstate in Hkb. simpl in Hkb. fold l in Hkb.
    assert (Hdis : disabled second = filter (fun sym => sym = symbol b) (map symbol l)).
    { assert (Hstate2 : StockListPage.state second
                        = removing (symbol b) (removing (symbol a) (StockListPage.state c)))
        by (rewrite Hsecond; simpl; by rewrite Hstate).
      assert (Hshown2 : StockListPage.table_shown (StockListPage.state second) = true)
        by (rewrite Hstate2; exact Hshown).
      unfold disabled. rewrite disabled_removes_render, Hshown2, Hstate2. simpl.
      apply list_filter_iff. intros sym. split; [by intros [= ->]|by intros ->]. }
    exists kb. split; [exact Hkb|]. split.
    { rewrite Hsecond. simpl. by rewrite Hwaiting, <- app_assoc. }
    split; [exact Hdis|].
    rewrite Hdis. intros Hin. apply list_elem_of_filter in Hin as [Hin _]. congruence. }
  split.
  { intros n o Hn answered.
    destruct (lookup_lt_is_Some_2 (StockListPage.waiting c) n Hn) as [k Hk].
    pose proof (Forall_lookup_1 _ _ _ _ Hopen Hk) as (l0 & sym & _ & Hrem).
    destruct (step_answer clicked n l0 sym k o) as (Hw & _ & Hcleared & _); [|done|].
    { rewrite Hwaiting. by apply lookup_app_l_Some. }
    fold answered in Hw, Hcleared. clearbody answered. split; [|by apply Hnone].
    rewrite Hw, Hwaiting. by apply delete_app_l. }
  intros o answered.
  destruct (step_answer clicked (length (StockListPage.waiting c)) l (symbol a) ka o)
    as (Hw & _ & Hcleared & _); [|done|].
  { rewrite Hwaiting. by rewrite lookup_app_r, Nat.sub_diag by lia. }
  fold answered in Hw, Hcleared. clearbody answered. split; [|by apply Hnone].
  rewrite Hw, Hwaiting. clear.
  induction (StockListPage.waiting c) as [|k ks IH]; [done|]. simpl. by rewrite IH.
Qed.

Lemma remove_disabled_follows_last_click_witness :
  let c := StockListPage.steps StockListPage.mounted
             [StockListPage.Answer 0 portfolio_answer; StockListPage.Remove 0] in
  let ko := sample_stock "KO" (Num (62 # 10)) in
  let disabled c' :=
    disabled_removes (@StockList.render integer_to_string (StockListPage.state c')) in
  (* AAPL's removal is open; Remove is clicked on KO *)
  StockListPage.table_shown (StockListPage.state c) = true
  ∧ StockList.stocks (StockListPage.state c) !! 1%nat = Some ko
  ∧ StockList.removingSymbol (StockListPage.state c) ≠ Some (symbol ko)
  ∧ disabled c = ["AAPL"]
  ∧ disabled (StockListPage.step c (StockListPage.Remove 1)) = ["KO"]
  ∧ length (StockListPage.waiting (StockListPage.step c (StockListPage.Remove 1))) = 2%nat
  (* AAPL's answer arrives: KO's removal is still open, nothing is disabled *)
  ∧ (0 < length (StockListPage.waiting c))%nat
  ∧ disabled (StockListPage.steps c
                [StockListPage.Remove 1; StockListPage.Answer 0 empty_answer]) = []
  ∧ length (StockListPage.waiting
              (StockListPage.steps c
                 [StockListPage.Remove 1; StockListPage.Answer 0 empty_answer])) = 1%nat.
Proof.
  intros c ko disabled.
  assert (Hshown : StockListPage.table_shown (StockListPage.state c) = true) by reflexivity.
  assert (Hko : StockList.stocks (StockListPage.state c) !! 1%nat = Some ko) by reflexivity.
  assert (Hfree : StockList.removingSymbol (StockListPage.state c) ≠ Some (symbol ko))
    by discriminate.
  assert (Hopen : (0 < length (StockListPage.waiting c))%nat) by (simpl; lia).
  destruct (@remove_disabled_follows_last_click integer_to_string
              [StockListPage.Answer 0 portfolio_answer; StockListPage.Remove 0] 1 ko
              Hshown Hko Hfree)
    as (ka & _ & _ & _ & Hdisabled & _ & _ & Hearlier & _).
  destruct (Hearlier 0%nat empty_answer Hopen) as [_ Hnone].
  split; [exact Hshown|]. split; [exact Hko|]. split; [exact Hfree|].
  split; [reflexivity|]. split; [exact Hdisabled|].
  split; [reflexivity|]. split; [exact Hopen|].
  split; [exact Hnone|reflexivity].
Defined.

(** ** StockList: the detail dialog *)

(** X10: on the table view, View Details puts the dialog on screen, open
    on exactly the clicked record, sends nothing and leaves the table as it
    is; closing the dialog keeps the record and the table.  While the dialog
    is open, a click on Remove and the success of an open removal leave it
    open on the same record, also when that record is the one removed.  The
    failure of an open removal takes the dialog off the screen together
    with the table: the component then returns the error text alone. *)
Theorem view_details_shows_record `{NumberToString}
    (inputs : list StockListPage.input) (i : nat) (stock : Stock) :
  let c := StockListPage.steps StockListPage.mounted inputs in
  StockListPage.table_shown (StockListPage.state c) = true →
  StockList.stocks (StockListPage.state c) !! i = Some stock →
  let table := map (StockList.render_row (StockListPage.state c))
                 (StockList.stocks (StockListPage.state c)) in
  let dialog open :=
    Some {| StockDetailView.dialog_open := open;
            StockDetailView.dialog_title := "Detailed Analysis: " ++ symbol stock;
            StockDetailView.dialog_rows := StockDetailView.rows stock |} in
  let screen c' := StockList.render (StockListPage.state c') in
  let opened := StockListPage.step c (StockListPage.ViewDetails i) in
  screen opened = StockList.Portfolio table (dialog true)
  ∧ StockListPage.waiting opened = StockListPage.waiting c
  ∧ StockListPage.log opened = StockListPage.log c
  ∧ screen (StockListPage.step opened StockListPage.CloseDetails)
    = StockList.Portfolio table (dialog false)
  ∧ (∀ j, ∃ rows,
       screen (StockListPage.step opened (StockListPage.Remove j))
       = StockList.Portfolio rows (dialog true))
  ∧ (∀ n o,
       let answered := StockListPage.step opened (StockListPage.Answer n o) in
       match StockListPage.waiting c !! n, o with
       | None, _ => answered = opened
       | Some _, Fulfilled _ => ∃ rows, screen answered = StockList.Portfolio rows (dialog true)
       | Some _, Rejected e =>
           screen answered
           = StockList.ErrorText (or_string (response_message e) "Failed to remove stock")
       end).
Proof.
  intros c Hshown Hi table dialog screen opened.
  assert (Hinv : page_inv c) by apply page_inv_steps, page_inv_mounted.
  pose proof (open_removals c Hinv Hshown) as Hopen.
  destruct (table_shown_true _ Hshown) as [Hload Herr].
  assert (Hopened : opened
    = {| StockListPage.state :=
           {| StockList.stocks := StockList.stocks (StockListPage.state c);
              StockList.error := StockList.error (StockListPage.state c);
              StockList.loading := StockList.loading (StockListPage.state c);
              StockList.selectedStock := Some stock;
              StockList.detailViewOpen := true;
              StockList.removingSymbol :=
                StockList.removingSymbol (StockListPage.state c) |};
         StockListPage.waiting := StockListPage.waiting c;
         StockListPage.log := StockListPage.log c;
         StockListPage.escaped := StockListPage.escaped c |}).
  { subst opened. simpl. rewrite Hshown, Hi. unfold StockListPage.dispatch. simpl.
    by rewrite !app_nil_r. }
  assert (Hshown' : StockListPage.table_shown (StockListPage.state opened) = true)
    by (by rewrite Hopened).
  split.
  { unfold screen. rewrite render_table by done. by rewrite Hopened. }
  split; [by rewrite Hopened|]. split; [by rewrite Hopened|]. split.
  { unfold screen. simpl. rewrite Hshown'. unfold StockListPage.dispatch. simpl.
    rewrite render_table by (by rewrite Hopened).
    by rewrite Hopened. }
  split.
  { intros j. unfold screen. simpl. rewrite Hshown'.
    destruct (StockList.stocks (StockListPage.state opened) !! j) as [b|] eqn:Hj.
    - destruct (bool_decide _).
      + eexists. rewrite render_table by done. by rewrite Hopened.
      + unfold StockListPage.dispatch.
        destruct (handleRemoveStock_advance (StockListPage.state opened)
                    (StockListPage.state opened) (symbol b)) as (k & -> & _).
        simpl. eexists. rewrite render_table by (by rewrite Hopened).
        by rewrite Hopened.
    - eexists. rewrite render_table by done. by rewrite Hopened. }
  intros n o answered.
  destruct (StockListPage.waiting c !! n) as [k|] eqn:Hn.
  - pose proof (Forall_lookup_1 _ _ _ _ Hopen Hn) as (l0 & sym & _ & Hrem).
    destruct (step_answer opened n l0 sym k o) as (_ & Hload' & _ & Hsel & Hdet & Hout);
      [by rewrite Hopened|done|].
    fold answered in Hload', Hsel, Hdet, Hout.
    rewrite Hopened in Hload', Hsel, Hdet. simpl in Hload', Hsel, Hdet.
    destruct o as [r|e]; destruct Hout as [_ Herror].
    + eexists. unfold screen. rewrite render_table.
      * by rewrite Hsel, Hdet.
      * unfold StockListPage.table_shown. rewrite Hload', Herror, Hopened. simpl.
        by rewrite Hload, Herr.
    + unfold screen. rewrite render_error.
      * by rewrite Herror.
      * congruence.
      * rewrite Herror. by apply or_string_nonempty.
  - subst answered. rewrite Hopened. simpl. by rewrite Hn.
Qed.

Lemma view_details_shows_record_witness :
  let c := StockListPage.steps StockListPage.mounted
             [StockListPage.Answer 0 portfolio_answer; StockListPage.Remove 1] in
  let aapl := sample_stock "AAPL" (Num (81 # 10)) in
  let screen c' := @StockList.render integer_to_string (StockListPage.state c') in
  let opened := StockListPage.step c (StockListPage.ViewDetails 0) in
  StockListPage.table_shown (StockListPage.state c) = true
  ∧ StockList.stocks (StockListPage.state c) !! 0%nat = Some aapl
  (* the removal of KO fails while the dialog shows AAPL *)
  ∧ screen (StockListPage.step opened (StockListPage.Answer 0 (Rejected network_error)))
    = StockList.ErrorText "Failed to remove stock"
  (* it succeeds: the dialog stays *)
  ∧ ∃ rows, screen (StockListPage.step opened (StockListPage.Answer 0 empty_answer))
            = StockList.Portfolio rows
                (Some {| StockDetailView.dialog_open := true;
                         StockDetailView.dialog_title := "Detailed Analysis: AAPL";
                         StockDetailView.dialog_rows :=
                           @StockDetailView.rows integer_to_string aapl |}).
Proof.
  intros c aapl screen opened.
  assert (Hshown : StockListPage.table_shown (StockListPage.state c) = true) by reflexivity.
  assert (Haapl : StockList.stocks (StockListPage.state c) !! 0%nat = Some aapl)
    by reflexivity.
  destruct (@view_details_shows_record integer_to_string
              [StockListPage.Answer 0 portfolio_answer; StockListPage.Remove 1] 0 aapl
              Hshown Haapl)
    as (_ & _ & _ & _ & _ & Hanswer).
  split; [exact Hshown|]. split; [exact Haapl|].
  split; [exact (Hanswer 0%nat (Rejected network_error))|].
  exact (Hanswer 0%nat empty_answer).
Defined.

(** ** The table and the dialog *)

Lemma append_nonempty (a b : string) : b ≠ EmptyString → (a ++ b)%string ≠ EmptyString.
Proof. intros Hb. destruct a; simpl; [done|discriminate]. Qed.

(** Below 10^21, with at least one fraction digit, [toFixed] prints a
    decimal point; its result is not empty. *)
Lemma toFixed_nonempty `{NumberToString} (x : Q) (f : nat) :
  Qle_bool (inject_Z (10 ^ 21)) (Qabs x) = false →
  toFixed x (S f) ≠ EmptyString.
Proof.
  intros Hsmall. unfold toFixed. rewrite Hsmall.
  apply append_nonempty, append_nonempty. discriminate.
Qed.

Lemma truthy_string_nonempty (s : string) : s ≠ EmptyString → truthy_string s = true.
Proof. intros Hs. by destruct s. Qed.

Lemma truthy_nonzero (q : Q) : ¬ (q == 0)%Q → truthy (Num q) = true.
Proof.
  intros Hq. simpl. apply negb_true_iff, not_true_iff_false.
  by rewrite Qeq_bool_iff.
Qed.

(** X11: for a metric that is a non-zero number of magnitude below 10^21,
    the table and the detail dialog show the same text in all four columns
    of the table.  For an absent metric the table shows N/A in every
    column, which the dialog does for the P/E ratio and the score only. *)
Theorem table_and_dialog_agree `{NumberToString}
    (col : list_column) (stock : Stock) :
  (∀ q, get_metric (column_field col) stock = Num q →
     ¬ (q == 0)%Q → (Qabs q < inject_Z (10 ^ 21))%Q →
     cell_of (detail_label (column_field col)) (StockDetailView.rows stock)
     = Some (list_cell col stock))
  ∧ (absent (get_metric (column_field col) stock) →
       list_cell col stock = "N/A"
       ∧ cell_of (detail_label (column_field col)) (StockDetailView.rows stock)
         = Some (detail_absent (column_field col))
       ∧ (detail_absent (column_field col) = "N/A" ↔ col = col_pe ∨ col = col_score)).
Proof.
  split.
  - intros q Hq Hnz Hmag.
    assert (Hsmall : Qle_bool (inject_Z (10 ^ 21)) (Qabs q) = false).
    { apply not_true_iff_false. rewrite Qle_bool_iff. by apply Qlt_not_le. }
    pose proof (truthy_nonzero q Hnz) as Htruthy. simpl in Htruthy.
    destruct col; simpl in Hq;
      unfold list_cell, StockList.price_cell, StockList.pe_cell, StockList.roe_cell,
        StockList.score_cell, if_truthy;
      cbn -[toFixed]; rewrite Hq; cbn -[toFixed]; rewrite ?Htruthy;
      rewrite ?(truthy_string_nonempty _ (toFixed_nonempty q 1 Hsmall)); reflexivity.
  - intros Habsent.
    assert (Hset : stock = set_metric (column_field col)
                             (get_metric (column_field col) stock) stock)
      by (by destruct stock, col).
    split; [|split].
    + destruct col; simpl in Habsent;
        unfold list_cell, StockList.price_cell, StockList.pe_cell, StockList.roe_cell,
          StockList.score_cell; by destruct Habsent as [-> | ->].
    + rewrite Hset at 1. by apply detail_cell_absent.
    + destruct col; simpl;
        (split; [intros Hd; try discriminate Hd; auto
                |intros [Hc|Hc]; try discriminate Hc; reflexivity]).
Qed.

Lemma table_and_dialog_agree_witness :
  let stock := sample_stock "KO" (Num (62 # 10)) in
  let unscored := sample_stock "NEW" Null in
  (get_metric (column_field col_price) stock = Num (150 # 1)
   ∧ ¬ (150 # 1 == 0)%Q ∧ (Qabs (150 # 1) < inject_Z (10 ^ 21))%Q
   ∧ @list_cell integer_to_string col_price stock = "$150.00"
   ∧ cell_of "Current Price" (@StockDetailView.rows integer_to_string stock)
     = Some (@list_cell integer_to_string col_price stock))
  ∧ (absent (get_metric (column_field col_score) unscored)
     ∧ @list_cell integer_to_string col_score unscored = "N/A"
     ∧ cell_of "Total Score" (@StockDetailView.rows integer_to_string unscored) = Some "N/A").
Proof.
  intros stock unscored.
  assert (Hprice : get_metric (column_field col_price) stock = Num (150 # 1)) by reflexivity.
  assert (Hnz : ¬ (150 # 1 == 0)%Q) by discriminate.
  assert (Hmag : (Qabs (150 # 1) < inject_Z (10 ^ 21))%Q) by reflexivity.
  assert (Habsent : absent (get_metric (column_field col_score) unscored)) by (by right).
  destruct (@table_and_dialog_agree integer_to_string col_price stock) as [Hsame _].
  destruct (@table_and_dialog_agree integer_to_string col_score unscored) as [_ Hna].
  destruct (Hna Habsent) as (Hlist & Hdetail & _).
  split.
  - split; [exact Hprice|]. split; [exact Hnz|]. split; [exact Hmag|].
    split; [reflexivity|exact (Hsame _ Hprice Hnz Hmag)].
  - split; [exact Habsent|]. split; [exact Hlist|exact Hdetail].
Defined.

(** X12: in the detail dialog a rating count of 0 is shown as N/A, exactly
    as an absent count is: the dialogs of a record with a count equal to 0
    and of the same record with that count absent are the same.  A count
    other than 0 is shown as the number. *)
Theorem rating_count_zero_shown_as_absent `{NumberToString}
    (f : count_field) (q : Q) (v : jsnum) (stock : Stock) :
  (q == 0)%Q → absent v →
  StockDetailView.rows (set_count f (Num q) stock)
    = StockDetailView.rows (set_count f v stock)
  ∧ cell_of (count_label f) (StockDetailView.rows (set_count f (Num q) stock)) = Some "N/A"
  ∧ (∀ q', ¬ (q' == 0)%Q →
       cell_of (count_label f) (StockDetailView.rows (set_count f (Num q') stock))
       = Some (number_to_string q')).
Proof.
  intros Hq Hv.
  pose proof (truthy_zero q Hq) as Hzero. simpl in Hzero.
  split; [|split].
  - destruct Hv as [-> | ->]; destruct f;
      unfold StockDetailView.rows, StockDetailView.count_cell, if_truthy;
      cbn -[toFixed]; by rewrite Hzero.
  - destruct f; unfold StockDetailView.rows, StockDetailView.count_cell, if_truthy;
      cbn -[toFixed]; by rewrite Hzero.
  - intros q' Hnz. pose proof (truthy_nonzero q' Hnz) as Htruthy. simpl in Htruthy.
    destruct f; unfold StockDetailView.rows, StockDetailView.count_cell, if_truthy;
      cbn -[toFixed]; by rewrite Htruthy.
Qed.

Lemma rating_count_zero_shown_as_absent_witness :
  let stock := sample_stock "KO" (Num (62 # 10)) in
  (0 == 0)%Q ∧ absent Undefined
  ∧ @StockDetailView.rows integer_to_string (set_count c_hold (Num 0) stock)
    = @StockDetailView.rows integer_to_string (set_count c_hold Undefined stock)
  ∧ cell_of "Hold" (@StockDetailView.rows integer_to_string (set_count c_hold (Num 0) stock))
    = Some "N/A"
  ∧ ¬ (7 == 0)%Q
  ∧ cell_of "Hold" (@StockDetailView.rows integer_to_string (set_count c_hold (Num 7) stock))
    = Some "7".
Proof.
  intros stock.
  assert (Hzero : (0 == 0)%Q) by reflexivity.
  assert (Habsent : absent Undefined) by (by left).
  assert (Hnz : ¬ (7 == 0)%Q) by discriminate.
  destruct (@rating_count_zero_shown_as_absent integer_to_string c_hold 0 Undefined stock
              Hzero Habsent) as (Hsame & Hna & Hshown).
  split; [exact Hzero|]. split; [exact Habsent|]. split; [exact Hsame|].
  split; [exact Hna|]. split; [exact Hnz|exact (Hshown 7%Q Hnz)].
Defined.

(** ** AddStockForm: what a submission leaves behind *)

(** X13: [handleSubmit] always prevents the form's default submission
    first and never throws.  With an empty field it does nothing else.
    When the add succeeds the field is cleared and [onStockAdded] is called
    once; if that callback throws, the error is logged and goes no further.
    When the add fails the field keeps its text, [onStockAdded] is not
    called, and the failure is logged twice, by the service and by the
    form. *)
Theorem handleSubmit_outcomes `{ToUpperCase} (w : world) (st : AddStockForm.State) :
  let r := run w (AddStockForm.handleSubmit st) st in
  settled_as r = Fulfilled tt
  ∧ head (trace_of r) = Some (Did preventDefault)
  ∧ (AddStockForm.symbol st = EmptyString →
       state_after r = st ∧ trace_of r = [Did preventDefault])
  ∧ (AddStockForm.symbol st ≠ EmptyString →
       match respond w (add_request (AddStockForm.symbol st)) with
       | Fulfilled _ =>
           state_after r = {| AddStockForm.symbol := EmptyString |}
           ∧ calls (trace_of r) = [onStockAdded]
           ∧ errors_logged (trace_of r)
             = match react w onStockAdded with
               | Fulfilled _ => []
               | Rejected _ => ["Error adding stock:"]
               end
       | Rejected _ =>
           state_after r = st
           ∧ calls (trace_of r) = []
           ∧ errors_logged (trace_of r) = ["Error adding stock:"; "Error adding stock:"]
       end).
Proof.
  intros r. subst r. unfold settled_as, state_after, trace_of, add_request.
  destruct st as [[|c s]]; cbn.
  - repeat split; done.
  - destruct (respond w _) as [resp|e]; cbn.
    + destruct (react w onStockAdded) as [[]|e]; cbn; repeat split; done.
    + repeat split; done.
Qed.

Lemma handleSubmit_outcomes_witness :
  let w := answering (Rejected network_error) in
  let st := {| AddStockForm.symbol := "aapl" |} in
  let r := run w (@AddStockForm.handleSubmit ascii_toUpperCase st) st in
  (AddStockForm.symbol AddStockForm.initial = EmptyString
   ∧ trace_of (run w (@AddStockForm.handleSubmit ascii_toUpperCase AddStockForm.initial)
                 AddStockForm.initial)
     = [Did preventDefault])
  ∧ AddStockForm.symbol st ≠ EmptyString
  ∧ respond w (@add_request ascii_toUpperCase (AddStockForm.symbol st))
    = Rejected network_error
  ∧ state_after r = st
  ∧ calls (trace_of r) = []
  ∧ errors_logged (trace_of r) = ["Error adding stock:"; "Error adding stock:"].
Proof.
  intros w st r.
  assert (Hempty : AddStockForm.symbol AddStockForm.initial = EmptyString) by reflexivity.
  assert (Hne : AddStockForm.symbol st ≠ EmptyString) by discriminate.
  destruct (@handleSubmit_outcomes ascii_toUpperCase w AddStockForm.initial)
    as (_ & _ & Hnothing & _).
  destruct (@handleSubmit_outcomes ascii_toUpperCase w st) as (_ & _ & _ & Hsent).
  split; [split; [exact Hempty|exact (proj2 (Hnothing Hempty))]|].
  split; [exact Hne|]. split; [reflexivity|]. exact (Hsent Hne).
Defined.

(** X14: submitting again from the render that follows a submission: after
    a successful add nothing is sent, because the field was cleared; after
    a failed add the same request is sent again. *)
Theorem handleSubmit_again `{ToUpperCase} (w w' : world) (st : AddStockForm.State) :
  AddStockForm.symbol st ≠ EmptyString →
  let st1 := state_after (run w (AddStockForm.handleSubmit st) st) in
  requests (trace_of (run w' (AddStockForm.handleSubmit st1) st1))
  = match respond w (add_request (AddStockForm.symbol st)) with
    | Fulfilled _ => []
    | Rejected _ => [add_request (AddStockForm.symbol st)]
    end.
Proof.
  intros Hne st1. subst st1. unfold state_after, trace_of, add_request.
  destruct st as [[|c s]]; [done|]. cbn.
  destruct (respond w _) as [resp|e]; cbn.
  - destruct (react w onStockAdded) as [[]|e]; cbn; done.
  - destruct (respond w' _) as [resp|e']; cbn; [|done].
    destruct (react w' onStockAdded) as [[]|e']; cbn; done.
Qed.

Lemma handleSubmit_again_witness :
  let st := {| AddStockForm.symbol := "ko" |} in
  let failing := answering (Rejected network_error) in
  let working := answering empty_answer in
  let submit := @AddStockForm.handleSubmit ascii_toUpperCase in
  AddStockForm.symbol st ≠ EmptyString
  ∧ requests (trace_of
      (run working
         (submit (state_after (run failing (submit st) st)))
         (state_after (run failing (submit st) st))))
    = [Post "/stocks" [("symbol", "KO")]]
  ∧ requests (trace_of
      (run working
         (submit (state_after (run working (submit st) st)))
         (state_after (run working (submit st) st))))
    = [].
Proof.
  intros st failing working submit.
  assert (Hne : AddStockForm.symbol st ≠ EmptyString) by discriminate.
  split; [exact Hne|]. split.
  - exact (@handleSubmit_again ascii_toUpperCase failing working st Hne).
  - exact (@handleSubmit_again ascii_toUpperCase working working st Hne).
Defined.

(** ** StockList: what is on screen after mounting *)

(** X15: the mounted view shows the spinner until [GET /stocks] is
    answered.  A failure puts the text "Failed to fetch stocks" on screen;
    a success puts the table on screen, one row per record of the response
    in score order (no row for a body that is not an array), every Remove
    button enabled and no detail dialog.  An answer to a request that is
    not open changes nothing. *)
Theorem mounted_view `{NumberToString} (o : outcome response) :
  StockList.render (StockListPage.state StockListPage.mounted) = StockList.Spinner
  ∧ StockList.render
      (StockListPage.state (StockListPage.step StockListPage.mounted (StockListPage.Answer 0 o)))
    = match o with
      | Rejected _ => StockList.ErrorText "Failed to fetch stocks"
      | Fulfilled r =>
          StockList.Portfolio
            (map (StockList.render_row StockList.initial)
               (sort StockList.by_score (StockList.stocksArray (data r))))
            None
      end
  ∧ (∀ n, n ≠ 0%nat →
       StockListPage.step StockListPage.mounted (StockListPage.Answer n o)
       = StockListPage.mounted).
Proof.
  split; [reflexivity|]. split.
  - destruct o as [r|e]; reflexivity.
  - intros n Hn. destruct n as [|n]; [done|]. reflexivity.
Qed.

Lemma mounted_view_witness :
  @StockList.render integer_to_string
    (StockListPage.state
       (StockListPage.step StockListPage.mounted (StockListPage.Answer 0 empty_answer)))
  = StockList.Portfolio [] None
  ∧ 1%nat ≠ 0%nat
  ∧ StockListPage.step StockListPage.mounted (StockListPage.Answer 1 portfolio_answer)
    = StockListPage.mounted.
Proof.
  assert (Hn : 1%nat ≠ 0%nat) by discriminate.
  destruct (@mounted_view integer_to_string empty_answer) as (_ & Hshown & _).
  destruct (@mounted_view integer_to_string portfolio_answer) as (_ & _ & Hother).
  split; [exact Hshown|]. split; [exact Hn|exact (Hother 1%nat Hn)].
Defined.
